(** * Serac: geometry helpers, physics-module life cycle and the
    operator-split thermal-structural coupling

  A shallow embedding of

  - [serac/numerics/functional/geometry.hpp]
    ([num_quadrature_points], [dimension_of], [geometry_counts],
    [boundary_geometry_counts]);
  - [serac/physics/thermomechanics.hpp] (class [Thermomechanics], and the
    vertex loop of [build_hollow_quarter_cylinder] of the example that
    follows it);
  - [serac/physics/tests/dynamic_thermal_adjoint.cpp]
    ([computeStepAdjointLoad] and the perturbation loop of the
    finite-difference drivers);
  - the physics-module contract ([HeatTransfer], [SolidMechanics],
    [BasePhysics]) that [Thermomechanics] and the adjoint tests drive.

  C++ [int] is a 32-bit two's-complement integer kept in [Z], [size_t] a
  64-bit unsigned integer kept in [Z], [double] is IEEE-754 binary64
  ([PrimFloat.float]), [std::string] is [string]. *)

From Stdlib Require Import ZArith List String Bool Lia.
From Stdlib Require Import Floats.
From stdpp Require Import strings gmap.
Import ListNotations.

Local Open Scope Z_scope.

(* ===================================================================== *)
(** * Machine integers *)
(* ===================================================================== *)

Module MachineInt.

Definition INT_MIN : Z := - 2 ^ 31.
Definition INT_MAX : Z := 2 ^ 31 - 1.

(** A value representable in a C++ [int]. *)
Definition fits (x : Z) : Prop := INT_MIN <= x <= INT_MAX.

(** Reduction of a mathematical integer into the [int] range, as a
    two's-complement target does when an [int] operation overflows. *)
Definition wrap32 (x : Z) : Z := (x + 2 ^ 31) mod 2 ^ 32 - 2 ^ 31.

Definition int_add (a b : Z) : Z := wrap32 (a + b).
Definition int_mul (a b : Z) : Z := wrap32 (a * b).
(** [a / b] on [int] truncates toward zero. *)
Definition int_div (a b : Z) : Z := wrap32 (Z.quot a b).

Definition SIZE_MAX : Z := 2 ^ 64 - 1.

(** [a + b] on [size_t]: unsigned arithmetic is modulo [2^64]. *)
Definition size_add (a b : Z) : Z := (a + b) mod 2 ^ 64.

End MachineInt.

(* ===================================================================== *)
(** * geometry.hpp *)
(* ===================================================================== *)

Module Geometry.
Import MachineInt.

(** [mfem::Geometry::Type], an enumeration of MFEM: its enumerators, in
    the order MFEM declares them. *)
Inductive Type_ : Set :=
| INVALID | POINT | SEGMENT | TRIANGLE | SQUARE
| TETRAHEDRON | CUBE | PRISM | PYRAMID | NUM_GEOMETRIES.

Definition eqb (a b : Type_) : bool :=
  match a, b with
  | INVALID, INVALID | POINT, POINT | SEGMENT, SEGMENT
  | TRIANGLE, TRIANGLE | SQUARE, SQUARE | TETRAHEDRON, TETRAHEDRON
  | CUBE, CUBE | PRISM, PRISM | PYRAMID, PYRAMID
  | NUM_GEOMETRIES, NUM_GEOMETRIES => true
  | _, _ => false
  end.

(** [constexpr int num_quadrature_points(mfem::Geometry::Type g, int q)] *)
Definition num_quadrature_points (g : Type_) (q : Z) : Z :=
  if eqb g SEGMENT then q
  else if eqb g TRIANGLE then
    int_div (int_mul q (int_add q 1)) 2
  else if eqb g SQUARE then
    int_mul q q
  else if eqb g TETRAHEDRON then
    int_div (int_mul (int_mul q (int_add q 1)) (int_add q 2)) 6
  else if eqb g CUBE then
    int_mul (int_mul q q) q
  else -1.

(** [constexpr int dimension_of(mfem::Geometry::Type g)] *)
Definition dimension_of (g : Type_) : Z :=
  if eqb g SEGMENT then 1
  else if eqb g TRIANGLE || eqb g SQUARE then 2
  else if eqb g TETRAHEDRON || eqb g CUBE then 3
  else -1.

(** The geometries the two functions know about. *)
Definition supported (g : Type_) : Prop := dimension_of g <> -1.

(** The closed forms, over the mathematical integers. *)
Definition point_count (g : Type_) (q : Z) : Z :=
  match g with
  | SEGMENT => q
  | TRIANGLE => q * (q + 1) / 2
  | SQUARE => q * q
  | TETRAHEDRON => q * (q + 1) * (q + 2) / 6
  | CUBE => q * q * q
  | _ => -1
  end.

(** No intermediate value of the evaluation leaves the [int] range. *)
Definition no_overflow (g : Type_) (q : Z) : Prop :=
  match g with
  | TRIANGLE => fits (q + 1) /\ fits (q * (q + 1))
  | SQUARE => fits (q * q)
  | TETRAHEDRON =>
      fits (q + 1) /\ fits (q * (q + 1)) /\ fits (q + 2)
      /\ fits (q * (q + 1) * (q + 2))
  | CUBE => fits (q * q) /\ fits (q * q * q)
  | _ => True
  end.

End Geometry.

(* ===================================================================== *)
(** * Values shared by the physics modules *)
(* ===================================================================== *)

(** C++ [double]. *)
Definition double : Set := PrimFloat.float.

(** The coefficient vector of a [FiniteElementState]. *)
Definition Field : Set := list double.

(** The coefficient vector of a [FiniteElementDual]. *)
Definition Dual : Set := list double.

(** [a += b] on coefficient vectors; a vector that has not been sized yet
    (no coefficient) takes the size of what is added to it. *)
Fixpoint vec_add (a b : list double) : list double :=
  match a, b with
  | [], _ => b
  | _, [] => a
  | x :: a', y :: b' => (x + y)%float :: vec_add a' b'
  end.

(** A [const FiniteElementState&]: the fields are shared by reference, so
    a parameter slot holds the identity of a field, never a copy of its
    coefficients.  The three named fields are owned by the sub-modules of
    the coupled solver; [External a] is a state owned by the caller. *)
Inductive FieldRef : Set :=
| ThermalTemperature
| SolidVelocity
| SolidDisplacement
| External (a : nat).

(** Modelled from the spec: the error taxonomy of section 7.  The source
    raises each of them through [SLIC_ERROR_ROOT] / [SLIC_ERROR_ROOT_IF],
    whose definition is not in the sources; [UnknownState] is the error of
    [Thermomechanics::state] for a name that is no state. *)
Inductive Error : Set :=
| ConfigurationError
| ConvergenceFailure
| InvalidState
| InconsistentTimestep
| UnsupportedOperation
| MissingCapability
| UnknownState.

(** Modelled from the spec: configuration, lifecycle and coupling errors
    are unrecoverable and terminate the run (section 7), which is what
    [SLIC_ERROR_ROOT] does.  A call on an object in state [S] either
    returns ([Ok s a]: the object afterwards, the value returned) or stops
    the run ([Fatal e s]: the error, the object as the failing call left
    it). *)
Inductive Outcome (S A : Type) : Type :=
| Ok (s : S) (a : A)
| Fatal (e : Error) (s : S).
Arguments Ok {S A} s a.
Arguments Fatal {S A} e s.

(** Sequencing of two calls on the same object. *)
Definition bind {S A B : Type} (x : Outcome S A)
    (k : S -> A -> Outcome S B) : Outcome S B :=
  match x with
  | Ok s a => k s a
  | Fatal e s => Fatal e s
  end.

(** A call on a member object, seen from the object that owns it. *)
Definition lift {S T A : Type} (put : T -> S) (x : Outcome T A) : Outcome S A :=
  match x with
  | Ok t a => Ok (put t) a
  | Fatal e t => Fatal e (put t)
  end.

(* ===================================================================== *)
(** * The physics module driven by the coupled solver and by the tests *)
(* ===================================================================== *)

(** [HeatTransfer], [SolidMechanics] and their base class are declared in
    headers that are not part of the sources ([heat_transfer.hpp],
    [solid_mechanics.hpp], [base_physics.hpp]); only their callers are.
    This module models them from section 4.3 of the specification. *)
Module BasePhysics.

(** Modelled from the spec: the life cycle of a physics module
    ([Uninitialized -> Configured -> SteppingForward -> AdjointReady ->
    SteppingBackward -> Complete]). *)
Inductive Phase : Set :=
| Uninitialized
| Configured
| SteppingForward
| AdjointReady
| SteppingBackward
| Complete.

(** Modelled from the spec: a checkpoint holds the primal fields at the end
    of step [n], the cycle index [n], the timestep used and the
    previous-step fields. *)
Record Checkpoint (St : Type) : Type := {
  ck_state : St;
  ck_cycle : Z;
  ck_dt : double;
  ck_previous : St
}.
Arguments ck_state {St} _.
Arguments ck_cycle {St} _.
Arguments ck_dt {St} _.
Arguments ck_previous {St} _.

(** Modelled from the spec: the dual fields an adjoint pass accumulates,
    one per parameter, one for the initial condition, one for the shape. *)
Record Sensitivities : Type := {
  sens_parameter : gmap Z Dual;
  sens_initial : Dual;
  sens_shape : Dual
}.

(** Modelled from the spec: the outcome of the nonlinear solve of one time
    step (section 4.1): the next state with the timestep actually used, or
    a failure that leaves the state at the last attempted iterate. *)
Inductive Solve (St : Type) : Type :=
| Converged (next : St) (dt_actual : double)
| Diverged (last : St).
Arguments Converged {St} next dt_actual.
Arguments Diverged {St} last.

(** Modelled from the spec: a physics module.  [St] is the tuple of primal
    fields ([temperature] for heat transfer, [(displacement, velocity)] for
    solid mechanics).  [parameters] maps a parameter slot to the field
    registered as its source of values; [material] holds the slots the
    registered material depends on; [checkpoints] are the checkpoints not
    consumed yet, the most recent first. *)
Record Physics (St : Type) : Type := {
  phase : Phase;
  primal : St;
  parameters : gmap Z FieldRef;
  material : option (list Z);
  cycle : Z;
  checkpoints : list (Checkpoint St);
  sensitivities : Sensitivities
}.
Arguments phase {St} _.
Arguments primal {St} _.
Arguments parameters {St} _.
Arguments material {St} _.
Arguments cycle {St} _.
Arguments checkpoints {St} _.
Arguments sensitivities {St} _.

Definition no_sensitivities : Sensitivities :=
  {| sens_parameter := ∅; sens_initial := []; sens_shape := [] |}.

(** Modelled from the spec: a reverse step accumulates its sensitivity
    contribution, field by field, onto what the earlier reverse steps
    left. *)
Definition accumulate (acc step : Sensitivities) : Sensitivities :=
  {| sens_parameter :=
       union_with (fun a b => Some (vec_add a b))
                  (sens_parameter acc) (sens_parameter step);
     sens_initial := vec_add (sens_initial acc) (sens_initial step);
     sens_shape := vec_add (sens_shape acc) (sens_shape step) |}.

Section Module_.
Context {St : Type}.

(** The nonlinear solve of one time step, given the primal fields, the
    values of the parameter fields at the time of the solve and the
    timestep; a collaborator of the module. *)
Variable solve : St -> gmap Z Field -> double -> Solve St.

(** The transposed linearised solve of one checkpointed step under the
    adjoint loads given by field name, returning the sensitivity
    contribution of that step; a collaborator of the module. *)
Variable adjoint : Checkpoint St -> gmap string Dual -> Sensitivities.

(** Modelled from the spec: a module as its constructor leaves it. *)
Definition create (initial : St) : Physics St :=
  {| phase := Uninitialized;
     primal := initial;
     parameters := ∅;
     material := None;
     cycle := 0;
     checkpoints := [];
     sensitivities := no_sensitivities |}.

(** Modelled from the spec: [setParameter] of a sub-module, which is not
    in the sources, registers [parameter_state] as the source of values of
    parameter [i], as the documentation of [Thermomechanics::setParameter]
    words it (its callers in [thermomechanics.hpp] pass the index and the
    state in either order). *)
Definition setParameter (p : Physics St) (i : Z) (parameter_state : FieldRef)
    : Physics St :=
  {| phase := phase p;
     primal := primal p;
     parameters := <[i := parameter_state]> (parameters p);
     material := material p;
     cycle := cycle p;
     checkpoints := checkpoints p;
     sensitivities := sensitivities p |}.

(** Modelled from the spec: [setMaterial(DependsOn<...>, material)]. *)
Definition setMaterial (p : Physics St) (depends_on : list Z) : Physics St :=
  {| phase := phase p;
     primal := primal p;
     parameters := parameters p;
     material := Some depends_on;
     cycle := cycle p;
     checkpoints := checkpoints p;
     sensitivities := sensitivities p |}.

(** Modelled from the spec: setting the primal fields to prescribed
    coefficients ([setTemperature], [setDisplacement]). *)
Definition setState (p : Physics St) (s : St) : Physics St :=
  {| phase := phase p;
     primal := s;
     parameters := parameters p;
     material := material p;
     cycle := cycle p;
     checkpoints := checkpoints p;
     sensitivities := sensitivities p |}.

(** Modelled from the spec: the one-shot [completeSetup()]; missing
    essential data (here: the material) is a fatal configuration error. *)
Definition completeSetup (p : Physics St) : Outcome (Physics St) unit :=
  match phase p with
  | Uninitialized =>
      match material p with
      | None => Fatal ConfigurationError p
      | Some _ =>
          Ok {| phase := Configured;
                primal := primal p;
                parameters := parameters p;
                material := material p;
                cycle := cycle p;
                checkpoints := checkpoints p;
                sensitivities := sensitivities p |} tt
      end
  | _ => Fatal InvalidState p
  end.

(** Modelled from the spec: [advanceTimestep(dt)] runs the solve of one
    step, appends a checkpoint, increments the cycle counter and returns
    the timestep actually used.  [view] gives the coefficients a field
    reference points to when the solve runs. *)
Definition advanceTimestep (view : FieldRef -> Field) (p : Physics St)
    (dt : double) : Outcome (Physics St) double :=
  match phase p with
  | Configured | SteppingForward | AdjointReady =>
      match solve (primal p) (view <$> parameters p) dt with
      | Converged next dt_actual =>
          Ok {| phase := SteppingForward;
                primal := next;
                parameters := parameters p;
                material := material p;
                cycle := cycle p + 1;
                checkpoints :=
                  {| ck_state := next; ck_cycle := cycle p + 1;
                     ck_dt := dt_actual; ck_previous := primal p |}
                  :: checkpoints p;
                sensitivities := sensitivities p |} dt_actual
      | Diverged last =>
          Fatal ConvergenceFailure
            {| phase := phase p;
               primal := last;
               parameters := parameters p;
               material := material p;
               cycle := cycle p;
               checkpoints := checkpoints p;
               sensitivities := sensitivities p |}
      end
  | _ => Fatal InvalidState p
  end.

(** Modelled from the spec: [reverseAdjointTimestep(loads)] consumes the
    most recent checkpoint not consumed yet, accumulates the sensitivity
    contribution of that step and decrements the cycle counter; it is an
    [InvalidState] error before any forward step and once every forward
    step has been reversed. *)
Definition reverseAdjointTimestep (p : Physics St) (loads : gmap string Dual)
    : Outcome (Physics St) unit :=
  match phase p with
  | SteppingForward | AdjointReady | SteppingBackward =>
      match checkpoints p with
      | [] => Fatal InvalidState p
      | ck :: older =>
          Ok {| phase := if decide (cycle p - 1 = 0) then Complete
                         else SteppingBackward;
                primal := primal p;
                parameters := parameters p;
                material := material p;
                cycle := cycle p - 1;
                checkpoints := older;
                sensitivities :=
                  accumulate (sensitivities p) (adjoint ck loads) |} tt
      end
  | _ => Fatal InvalidState p
  end.

(** [k] successful calls of [advanceTimestep] in a row; the driver may
    change the caller-owned fields and the timestep between two calls. *)
Inductive forward : nat -> Physics St -> Physics St -> Prop :=
| forward_none (p : Physics St) : forward 0 p p
| forward_step (k : nat) (p p1 p2 : Physics St)
    (view : FieldRef -> Field) (dt dt_actual : double) :
    forward k p p1 ->
    advanceTimestep view p1 dt = Ok p2 dt_actual ->
    forward (S k) p p2.

(** One call of [reverseAdjointTimestep] per adjoint load of the list, in
    the order of the list, stopping at the first call that fails. *)
Fixpoint reverse (p : Physics St) (loads : list (gmap string Dual))
    : Outcome (Physics St) unit :=
  match loads with
  | [] => Ok p tt
  | l :: rest =>
      bind (reverseAdjointTimestep p l) (fun p' _ => reverse p' rest)
  end.

(** The state of a module between two calls: [n] checkpoints wait to be
    consumed, the cycle counter is [n], and the phase says whether a
    reverse step is legal. *)
Definition pending (n : nat) (p : Physics St) : Prop :=
  cycle p = Z.of_nat n
  /\ length (checkpoints p) = n
  /\ match n with
     | O => phase p = Configured \/ phase p = Complete
     | S _ => phase p = SteppingForward \/ phase p = SteppingBackward
     end.

(** A module that [completeSetup()] has just configured. *)
Definition fresh (p : Physics St) : Prop :=
  phase p = Configured /\ cycle p = 0 /\ checkpoints p = [].

End Module_.

End BasePhysics.

(* ===================================================================== *)
(** * thermomechanics.hpp *)
(* ===================================================================== *)

Module Thermomechanics.
Import MachineInt.
Import BasePhysics.

(** Modelled from the spec: [serac::CouplingScheme] is declared in a
    header that is not part of the sources; the specification names the
    operator-split strategy and a monolithic one. *)
Inductive CouplingScheme : Set :=
| OperatorSplit
| Monolithic.

Definition CouplingScheme_eqb (a b : CouplingScheme) : bool :=
  match a, b with
  | OperatorSplit, OperatorSplit | Monolithic, Monolithic => true
  | _, _ => false
  end.

(** [HeatTransfer<order, dim, Parameters<displacement_field, ...>>]: the
    primal field is the temperature. *)
Abbreviation HeatTransfer := (Physics Field).

(** [SolidMechanics<order, dim, Parameters<temperature_field, ...>>]: the
    primal fields are the displacement and the velocity. *)
Abbreviation SolidMechanics := (Physics (Field * Field)).

(** What the constructor reads of the mesh. *)
Record Mesh : Set := {
  Dimension : Z;
  scalar_dofs : nat
}.

(** The data members of [class Thermomechanics] ([name_], [cycle_] and
    [states_] are inherited from [BasePhysics]). *)
Record t : Type := {
  name_ : string;
  cycle_ : Z;
  states_ : list FieldRef;
  coupling_ : CouplingScheme;
  thermal_ : HeatTransfer;
  solid_ : SolidMechanics
}.

Definition with_thermal (m : t) (th : HeatTransfer) : t :=
  {| name_ := name_ m; cycle_ := cycle_ m; states_ := states_ m;
     coupling_ := coupling_ m; thermal_ := th; solid_ := solid_ m |}.

Definition with_solid (m : t) (so : SolidMechanics) : t :=
  {| name_ := name_ m; cycle_ := cycle_ m; states_ := states_ m;
     coupling_ := coupling_ m; thermal_ := thermal_ m; solid_ := so |}.

Definition with_cycle (m : t) (c : Z) : t :=
  {| name_ := name_ m; cycle_ := c; states_ := states_ m;
     coupling_ := coupling_ m; thermal_ := thermal_ m; solid_ := solid_ m |}.

(** [thermal_.temperature()], [solid_.displacement()], [solid_.velocity()] *)
Definition temperature (m : t) : Field := primal (thermal_ m).
Definition displacement (m : t) : Field := fst (primal (solid_ m)).
Definition velocity (m : t) : Field := snd (primal (solid_ m)).

(** The coefficients a field reference points to, in the object [m] and
    the caller-owned states [user], at the time it is read. *)
Definition view (user : nat -> Field) (m : t) (r : FieldRef) : Field :=
  match r with
  | ThermalTemperature => temperature m
  | SolidVelocity => velocity m
  | SolidDisplacement => displacement m
  | External a => user a
  end.

Definition zero (n : nat) : Field := repeat 0%float n.

(** [Thermomechanics(thermal_options, solid_options, geom_nonlin, name,
    pmesh)], for the template argument [dim]. *)
Definition create (dim : Z) (mesh : Mesh) (name : string) : Outcome unit t :=
  let thermal := BasePhysics.create (zero (scalar_dofs mesh)) in
  let vector_dofs := (Z.to_nat dim * scalar_dofs mesh)%nat in
  let solid := BasePhysics.create (zero vector_dofs, zero vector_dofs) in
  if negb (Dimension mesh =? dim) then Fatal ConfigurationError tt
  else
    let states := [] ++ [ThermalTemperature] in
    let states := states ++ [SolidVelocity] in
    let states := states ++ [SolidDisplacement] in
    let thermal := BasePhysics.setParameter thermal 0 SolidDisplacement in
    let solid := BasePhysics.setParameter solid 0 ThermalTemperature in
    Ok tt {| name_ := name; cycle_ := 0; states_ := states;
             coupling_ := OperatorSplit;
             thermal_ := thermal; solid_ := solid |}.

(** [void completeSetup()] *)
Definition completeSetup (m : t) : Outcome t unit :=
  if negb (CouplingScheme_eqb (coupling_ m) OperatorSplit)
  then Fatal UnsupportedOperation m
  else
    bind (lift (with_thermal m) (BasePhysics.completeSetup (thermal_ m)))
      (fun m _ =>
         lift (with_solid m) (BasePhysics.completeSetup (solid_ m))).

(** [void setParameter(const FiniteElementState& parameter_state, size_t i)] *)
Definition setParameter (m : t) (parameter_state : FieldRef) (i : Z) : t :=
  let m :=
    with_thermal m
      (BasePhysics.setParameter (thermal_ m) (size_add i 1) parameter_state) in
  with_solid m
    (BasePhysics.setParameter (solid_ m) (size_add i 1) parameter_state).

(** [const FiniteElementState& state(const std::string& state_name)] *)
Definition state (m : t) (state_name : string) : Outcome t Field :=
  if String.eqb state_name "displacement" then Ok m (displacement m)
  else if String.eqb state_name "velocity" then Ok m (velocity m)
  else if String.eqb state_name "temperature" then Ok m (temperature m)
  else Fatal UnknownState m.

(** [std::vector<std::string> stateNames()] *)
Definition stateNames (m : t) : list string :=
  ["displacement"; "velocity"; "temperature"]%string.

(** [1.0e-6] as a [double]. *)
Definition dt_tolerance : double := 0x1.0c6f7a0b5ed8dp-20%float.

(** [std::abs(dt - initial_dt) > 1.0e-6] *)
Definition dt_changed (dt initial_dt : double) : bool :=
  (dt_tolerance <? abs (dt - initial_dt))%float.

(** [setMaterial(DependsOn<active_parameters...>, material, qdata)] *)
Definition setMaterial (m : t) (active_parameters : list Z) : t :=
  let depends_on := 0 :: List.map (fun a => a + 1) active_parameters in
  let m := with_thermal m (BasePhysics.setMaterial (thermal_ m) depends_on) in
  with_solid m (BasePhysics.setMaterial (solid_ m) depends_on).

(** [setTemperature(temperature)], the function given by its coefficients *)
Definition setTemperature (m : t) (T : Field) : t :=
  with_thermal m (BasePhysics.setState (thermal_ m) T).

(** [setDisplacement(displacement)], the function given by its coefficients *)
Definition setDisplacement (m : t) (u : Field) : t :=
  with_solid m (BasePhysics.setState (solid_ m) (u, velocity m)).

Section Coupled.

(** The solves of the two sub-modules. *)
Variable thermal_solve : Field -> gmap Z Field -> double -> Solve Field.
Variable solid_solve :
  Field * Field -> gmap Z Field -> double -> Solve (Field * Field).

(** [void advanceTimestep(double& dt)]; the value of [dt] on return is the
    value returned. *)
Definition advanceTimestep (user : nat -> Field) (m : t) (dt : double)
    : Outcome t double :=
  match coupling_ m with
  | OperatorSplit =>
      let initial_dt := dt in
      bind (lift (with_thermal m)
              (BasePhysics.advanceTimestep thermal_solve (view user m)
                 (thermal_ m) dt))
        (fun m dt =>
           bind (lift (with_solid m)
                   (BasePhysics.advanceTimestep solid_solve (view user m)
                      (solid_ m) dt))
             (fun m dt =>
                if dt_changed dt initial_dt
                then Fatal InconsistentTimestep m
                else Ok (with_cycle m (cycle_ m + 1)) dt))
  | _ => Fatal UnsupportedOperation m
  end.

(** [k] successful coupling steps in a row. *)
Inductive forward : nat -> t -> t -> Prop :=
| forward_none (m : t) : forward 0 m m
| forward_step (k : nat) (m m1 m2 : t)
    (user : nat -> Field) (dt dt_actual : double) :
    forward k m m1 ->
    advanceTimestep user m1 dt = Ok m2 dt_actual ->
    forward (S k) m m2.

End Coupled.

(** The cross-coupling the constructor sets up: slot 0 of the thermal
    sub-module is the displacement, slot 0 of the solid sub-module is the
    temperature. *)
Definition coupled (m : t) : Prop :=
  parameters (thermal_ m) !! 0 = Some SolidDisplacement
  /\ parameters (solid_ m) !! 0 = Some ThermalTemperature.

(** What a driver does between construction and [completeSetup()]. *)
Inductive setup : t -> t -> Prop :=
| setup_done (m : t) : setup m m
| setup_parameter (m m' : t) (parameter_state : FieldRef) (i : Z) :
    setup m m' -> 0 <= i <= SIZE_MAX ->
    setup m (setParameter m' parameter_state i)
| setup_material (m m' : t) (active_parameters : list Z) :
    setup m m' -> setup m (setMaterial m' active_parameters)
| setup_temperature (m m' : t) (T : Field) :
    setup m m' -> setup m (setTemperature m' T)
| setup_displacement (m m' : t) (u : Field) :
    setup m m' -> setup m (setDisplacement m' u).

(** A freshly configured module: constructed, set up, and
    [completeSetup()] has returned. *)
Inductive configured : t -> Prop :=
| configured_intro (dim : Z) (mesh : Mesh) (name : string) (m0 m1 m2 : t) :
    create dim mesh name = Ok tt m0 ->
    setup m0 m1 ->
    completeSetup m1 = Ok m2 tt ->
    configured m2.

(** What the driver may not change before the first step: the counters,
    the checkpoints, the phases and the coupling strategy. *)
Definition untouched (m m' : t) : Prop :=
  cycle_ m' = cycle_ m
  /\ coupling_ m' = coupling_ m
  /\ cycle (thermal_ m') = cycle (thermal_ m)
  /\ cycle (solid_ m') = cycle (solid_ m)
  /\ checkpoints (thermal_ m') = checkpoints (thermal_ m)
  /\ checkpoints (solid_ m') = checkpoints (solid_ m).

(** A sequence of user calls [setParameter(parameter_state, i)]. *)
Definition setParameters (m : t) (calls : list (FieldRef * Z)) : t :=
  fold_left (fun m c => setParameter m (fst c) (snd c)) calls m.

(** The exchange as the coupling descriptor words it: in a coupling step
    the solve of the solid sub-module reads every parameter, the
    temperature included, as it was before the step. *)
Definition previous_step_exchange
    (thermal_solve : Field -> gmap Z Field -> double -> Solve Field)
    (solid_solve :
       Field * Field -> gmap Z Field -> double -> Solve (Field * Field))
    (user : nat -> Field) (m : t) (dt : double) : Prop :=
  forall (m' : t) (dt' : double),
    advanceTimestep thermal_solve solid_solve user m dt = Ok m' dt' ->
    exists dt1 : double,
      solid_solve (displacement m, velocity m)
        (view user m <$> parameters (solid_ m)) dt1
      = Converged (displacement m', velocity m') dt'.

End Thermomechanics.

(* ===================================================================== *)
(** * Concrete collaborators and drivers *)
(* ===================================================================== *)

Module Scenario.
Import MachineInt.
Import BasePhysics.
Import Thermomechanics.

Definition beam : Mesh := {| Dimension := 3; scalar_dofs := 2 |}.

(** No caller-owned state holds a coefficient. *)
Definition no_user : nat -> Field := fun _ => [].

(** A module on its own has no parameter field to read. *)
Definition no_field : FieldRef -> Field := fun _ => [].

(** A thermal solve that raises every coefficient by [dt]. *)
Definition heat (T : Field) (params : gmap Z Field) (dt : double)
    : Solve Field :=
  Converged (List.map (fun x => (x + dt)%float) T) dt.

(** A solid solve that expands freely: the three components of the
    displacement of a node are the value its parameter 0 has at the node. *)
Definition follow (s : Field * Field) (params : gmap Z Field) (dt : double)
    : Solve (Field * Field) :=
  match params !! 0 with
  | Some T => Converged (flat_map (fun x => [x; x; x]) T, snd s) dt
  | None => Converged s dt
  end.

(** A thermal solve that returns a timestep longer by [2^-21]. *)
Definition heat_nudging (T : Field) (params : gmap Z Field) (dt : double)
    : Solve Field :=
  Converged T (dt + 0x1p-21)%float.

(** A thermal solve that doubles the timestep, a solid solve that halves
    it. *)
Definition heat_doubling (T : Field) (params : gmap Z Field) (dt : double)
    : Solve Field :=
  Converged T (dt * 2)%float.

Definition follow_halving (s : Field * Field) (params : gmap Z Field)
    (dt : double) : Solve (Field * Field) :=
  Converged s (dt / 2)%float.

(** An adjoint solve: the load on the temperature goes to the initial
    condition, the checkpointed state to parameter 0, the previous state
    to the shape. *)
Definition pull_back (ck : Checkpoint Field) (loads : gmap string Dual)
    : Sensitivities :=
  {| sens_parameter := {[ 0 := ck_state ck ]};
     sens_initial := default [] (loads !! "temperature"%string);
     sens_shape := ck_previous ck |}.

(** Stands in for the beam were its construction to fail; it does not
    ([constructed_Ok]). *)
Definition blank : t :=
  {| name_ := ""; cycle_ := 0; states_ := [];
     coupling_ := OperatorSplit;
     thermal_ := BasePhysics.create [];
     solid_ := BasePhysics.create ([], []) |}.

Definition constructed : t :=
  match create 3 beam "beam" with
  | Ok _ m => m
  | Fatal _ _ => blank
  end.

Definition assembled : t :=
  setTemperature (setMaterial constructed []) [1; 1]%float.

Definition ready : t :=
  match completeSetup assembled with
  | Ok m _ => m
  | Fatal _ m => m
  end.

(** One coupled step of [0.125] with the solves [heat] and [follow]. *)
Definition stepped (m : t) : t :=
  match advanceTimestep heat follow no_user m 0.125%float with
  | Ok m' _ => m'
  | Fatal _ m' => m'
  end.

(** The beam as a step of [1] leaves it when the thermal solve doubles
    the timestep. *)
Definition refused : t :=
  match advanceTimestep heat_doubling follow no_user ready 1%float with
  | Ok m' _ => m'
  | Fatal _ m' => m'
  end.

(** The same object with another coupling strategy selected. *)
Definition monolithic : t :=
  {| name_ := name_ assembled; cycle_ := cycle_ assembled;
     states_ := states_ assembled; coupling_ := Monolithic;
     thermal_ := thermal_ assembled; solid_ := solid_ assembled |}.

(** A heat-transfer module on its own, as the adjoint tests set it up. *)
Definition thermal_ready : Physics Field :=
  match BasePhysics.completeSetup
          (BasePhysics.setMaterial (BasePhysics.create [0; 0]%float) []) with
  | Ok p _ => p
  | Fatal _ p => p
  end.

Definition advanced (p : Physics Field) : Physics Field :=
  match BasePhysics.advanceTimestep heat no_field p 0.125%float with
  | Ok p' _ => p'
  | Fatal _ p' => p'
  end.

End Scenario.

(* ===================================================================== *)
(** * geometry.hpp: counting the geometries of a mesh *)
(* ===================================================================== *)

Module MeshCounts.
Import MachineInt.
Import Geometry.

(** The value of each enumerator of [mfem::Geometry::Type], as MFEM
    declares them ([INVALID = -1], [POINT = 0], and so on). *)
Definition value (g : Type_) : Z :=
  match g with
  | INVALID => -1
  | POINT => 0
  | SEGMENT => 1
  | TRIANGLE => 2
  | SQUARE => 3
  | TETRAHEDRON => 4
  | CUBE => 5
  | PRISM => 6
  | PYRAMID => 7
  | NUM_GEOMETRIES => 8
  end.

(** [uint64_t(x)] of a signed value. *)
Definition to_uint64 (x : Z) : Z := x mod 2 ^ 64.

(** What the two counting functions read of an [mfem::Mesh]:
    [GetNE()], [GetElementGeometry(i)], [GetNumFaces()],
    [GetFaceInformation(f).IsInterior()] and [GetFaceGeometry(f)]. *)
Record Mesh : Type := {
  GetNE : Z;
  GetElementGeometry : Z -> Type_;
  GetNumFaces : Z;
  IsInterior : Z -> bool;
  GetFaceGeometry : Z -> Type_
}.

(** [std::array<uint32_t, mfem::Geometry::NUM_GEOMETRIES> counts{}] *)
Definition no_counts : list Z :=
  replicate (Z.to_nat (value NUM_GEOMETRIES)) 0.

(** [counts[i]++] on an array of [uint32_t].  [std::array::operator[]]
    does not check its index: outside the array the behaviour is
    undefined, which is [None]. *)
Definition increment (counts : list Z) (i : Z) : option (list Z) :=
  if i <? Z.of_nat (length counts) then
    match counts !! Z.to_nat i with
    | Some c => Some (<[Z.to_nat i := (c + 1) mod 2 ^ 32]> counts)
    | None => None
    end
  else None.

(** [counts[uint64_t(g)]++] *)
Definition count (counts : option (list Z)) (g : Type_) : option (list Z) :=
  match counts with
  | Some c => increment c (to_uint64 (value g))
  | None => None
  end.

(** [geometry_counts(mesh)] *)
Definition geometry_counts (mesh : Mesh) : option (list Z) :=
  foldl (fun counts i => count counts (GetElementGeometry mesh i))
    (Some no_counts) (seqZ 0 (GetNE mesh)).

(** [boundary_geometry_counts(mesh)] *)
Definition boundary_geometry_counts (mesh : Mesh) : option (list Z) :=
  foldl (fun counts f =>
           if IsInterior mesh f then counts
           else count counts (GetFaceGeometry mesh f))
    (Some no_counts) (seqZ 0 (GetNumFaces mesh)).

(** The geometries that index a counter. *)
Definition real_geometry (g : Type_) : Prop :=
  0 <= value g < value NUM_GEOMETRIES.

(** How many of the indices [0 .. n-1] satisfy [keep]. *)
Definition tally (keep : Z -> bool) (n : Z) : Z :=
  Z.of_nat (length (List.filter keep (seqZ 0 n))).

(** The sum of the counters. *)
Definition total (counts : list Z) : Z := foldr Z.add 0 counts.

(** A mixed patch: a square between two triangles, and four edges of which
    the first is interior. *)
Definition patch : Mesh :=
  {| GetNE := 3;
     GetElementGeometry := fun i => if i =? 1 then SQUARE else TRIANGLE;
     GetNumFaces := 4;
     IsInterior := fun f => f =? 0;
     GetFaceGeometry := fun _ => SEGMENT |}.

End MeshCounts.

(* ===================================================================== *)
(** * tests/dynamic_thermal_adjoint.cpp: the loops over coefficients *)
(* ===================================================================== *)

Module ThermalAdjointTest.

(** [v(n) = x] on an [mfem::Vector].  The access is unchecked: an index
    outside the vector is undefined behaviour, which is [None]. *)
Definition assign (v : list double) (n : Z) (x : double)
    : option (list double) :=
  if (0 <=? n) && (n <? Z.of_nat (length v))
  then Some (<[Z.to_nat n := x]> v)
  else None.

(** [void computeStepAdjointLoad(const FiniteElementState& temperature,
    FiniteElementDual& d_qoi_d_temperature, double dt)]: the dual is
    written in place and is the value returned. *)
Definition computeStepAdjointLoad (temperature : Field)
    (d_qoi_d_temperature : Dual) (dt : double) : option Dual :=
  foldl (fun d n =>
           match d, temperature !! Z.to_nat n with
           | Some d, Some Tn => assign d n (dt * Tn)%float
           | _, _ => None
           end)
    (Some d_qoi_d_temperature)
    (seqZ 0 (Z.of_nat (length temperature))).

(** How a run of test code ends: it returns, an assertion stops it, or it
    reads or writes outside a vector (undefined behaviour). *)
Inductive Run (A : Type) : Type :=
| Returned (a : A)
| AssertionFailed
| Undefined.
Arguments Returned {A} a.
Arguments AssertionFailed {A}.
Arguments Undefined {A}.

(** The perturbation of [computeThermalQoiAdjustingInitalTemperature] (of
    the temperature) and of [computeThermalQoiAdjustingShape] (of the shape
    displacement): the [SLIC_ASSERT_MSG] on the sizes, which only a build
    with assertions ([assertions = true]) checks, then the loop
    [field(n) += pertubation * derivativeDirection(n)] over the field. *)
Definition perturb (assertions : bool) (field derivativeDirection : Field)
    (pertubation : double) : Run Field :=
  if assertions
     && negb (Z.of_nat (length field) =? Z.of_nat (length derivativeDirection))
  then AssertionFailed
  else
    let N := Z.of_nat (length field) in
    foldl (fun run n =>
             match run with
             | Returned f =>
                 match f !! Z.to_nat n, derivativeDirection !! Z.to_nat n with
                 | Some fn, Some vn =>
                     Returned
                       (<[Z.to_nat n := (fn + pertubation * vn)%float]> f)
                 | _, _ => Undefined
                 end
             | other => other
             end)
      (Returned field) (seqZ 0 N).

End ThermalAdjointTest.

(* ===================================================================== *)
(** * The hollow quarter cylinder of the thermomechanics example *)
(* ===================================================================== *)

Module HollowCylinder.
Import MachineInt.

(** [M_PI_2] as a [double]. *)
Definition M_PI_2 : double := 0x1.921fb54442d18p+0%float.

(** [v[n]] on an [mfem::Vector]; the access is unchecked, so an index
    outside the vector is undefined behaviour, [None]. *)
Definition read (v : list double) (n : Z) : option double :=
  if (0 <=? n) && (n <? Z.of_nat (length v)) then v !! Z.to_nat n else None.

(** [v[n] = x] on an [mfem::Vector], unchecked as well. *)
Definition write (v : list double) (n : Z) (x : double)
    : option (list double) :=
  if (0 <=? n) && (n <? Z.of_nat (length v))
  then Some (<[Z.to_nat n := x]> v)
  else None.

Section Bend.

(** [cos] and [sin] of the C library. *)
Variable cos : double -> double.
Variable sin : double -> double.

Variable inner_radius : double.
Variable outer_radius : double.
Variable height : double.

(** The map of a vertex of the unit cube onto the cylindrical shell. *)
Definition shell (x y z : double) : double * double * double :=
  let r := (inner_radius + (outer_radius - inner_radius) * x)%float in
  let theta := (y * M_PI_2)%float in
  ((r * cos theta)%float, (r * sin theta)%float, (z * height)%float).

(** One iteration of the loop over the vertices in
    [build_hollow_quarter_cylinder]: vertex [i] is read from
    [new_vertices], where the coordinate [d] of vertex [i] is at index
    [d * num_vertices + i], mapped onto the shell and written back. *)
Definition move_vertex (num_vertices : Z) (new_vertices : list double)
    (i : Z) : option (list double) :=
  x ← read new_vertices (int_add (int_mul 0 num_vertices) i);
  y ← read new_vertices (int_add (int_mul 1 num_vertices) i);
  z ← read new_vertices (int_add (int_mul 2 num_vertices) i);
  let '(x', y', z') := shell x y z in
  v ← write new_vertices (int_add (int_mul 0 num_vertices) i) x';
  v ← write v (int_add (int_mul 1 num_vertices) i) y';
  write v (int_add (int_mul 2 num_vertices) i) z'.

(** The loop over the vertices in [build_hollow_quarter_cylinder]:
    [num_vertices] is [mesh.GetNV()], [new_vertices] what
    [mesh.GetVertices] returned, and the result what is handed to
    [mesh.SetVertices]. *)
Definition build_hollow_quarter_cylinder (num_vertices : Z)
    (new_vertices : list double) : option (list double) :=
  foldl (fun v i => v ≫= fun v => move_vertex num_vertices v i)
    (Some new_vertices) (seqZ 0 num_vertices).

(** Coordinate [d] of a point. *)
Definition coordinate (d : Z) (p : double * double * double) : double :=
  if d =? 0 then fst (fst p) else if d =? 1 then snd (fst p) else snd p.

(** Coordinate [d] of the image of vertex [i] of the array [vertices]. *)
Definition moved (num_vertices : Z) (vertices : list double) (i d : Z)
    : option double :=
  x ← vertices !! Z.to_nat i;
  y ← vertices !! Z.to_nat (num_vertices + i);
  z ← vertices !! Z.to_nat (2 * num_vertices + i);
  Some (coordinate d (shell x y z)).

(** The array after the first [k] vertices have been moved: these are on
    the shell, the others where they were. *)
Definition moved_up_to (nv : Z) (vs cur : list double) (k : Z) : Prop :=
  length cur = length vs
  /\ forall i d, 0 <= i < nv -> 0 <= d <= 2 ->
       cur !! Z.to_nat (d * nv + i)
       = if i <? k then moved nv vs i d else vs !! Z.to_nat (d * nv + i).

End Bend.

(** Stand-ins for [cos] and [sin] near zero, to run the loop on. *)
Definition cos_near_zero (t : double) : double := (1 - t * t / 2)%float.
Definition sin_near_zero (t : double) : double := t.

End HollowCylinder.

(* ===================================================================== *)
(** * The coupled module through its life cycle *)
(* ===================================================================== *)

Module Lifecycle.
Import MachineInt.
Import BasePhysics.
Import Thermomechanics.

(** What a driver does between construction and [completeSetup()] when
    every user parameter index is below [SIZE_MAX]. *)
Inductive setup_below : t -> t -> Prop :=
| setup_below_done (m : t) : setup_below m m
| setup_below_parameter (m m' : t) (parameter_state : FieldRef) (i : Z) :
    setup_below m m' -> 0 <= i < SIZE_MAX ->
    setup_below m (setParameter m' parameter_state i)
| setup_below_material (m m' : t) (active_parameters : list Z) :
    setup_below m m' -> setup_below m (setMaterial m' active_parameters)
| setup_below_temperature (m m' : t) (T : Field) :
    setup_below m m' -> setup_below m (setTemperature m' T)
| setup_below_displacement (m m' : t) (u : Field) :
    setup_below m m' -> setup_below m (setDisplacement m' u).

(** A solid solve that loses the timestep: it returns NaN for it. *)
Definition follow_losing_timestep (s : Field * Field)
    (params : gmap Z Field) (dt : double) : Solve (Field * Field) :=
  Converged s nan.

(** The beam after a step of [1] whose solid solve loses the timestep. *)
Definition lost : t :=
  match advanceTimestep Scenario.heat follow_losing_timestep
          Scenario.no_user Scenario.ready 1%float with
  | Ok m' _ => m'
  | Fatal _ m' => m'
  end.

End Lifecycle.

(* ===================================================================== *)
(** * Facts about machine integers *)
(* ===================================================================== *)

Section MachineIntFacts.
Import MachineInt.

Lemma wrap32_fits (x : Z) : fits x -> wrap32 x = x.
Proof.
  unfold fits, INT_MIN, INT_MAX, wrap32. intros Hx.
  rewrite Z.mod_small; lia.
Qed.

Lemma wrap32_range (x : Z) : fits (wrap32 x).
Proof.
  unfold fits, INT_MIN, INT_MAX, wrap32.
  pose proof (Z.mod_pos_bound (x + 2 ^ 31) (2 ^ 32)). lia.
Qed.

Lemma size_add_small (a b : Z) :
  0 <= a + b <= SIZE_MAX -> size_add a b = a + b.
Proof.
  unfold size_add, SIZE_MAX. intros H. apply Z.mod_small. lia.
Qed.

Lemma size_add_wraps : size_add SIZE_MAX 1 = 0.
Proof. reflexivity. Qed.

(** Two consecutive integers: their product is even. *)
Lemma consecutive_even (q : Z) : exists k, q * (q + 1) = k * 2.
Proof.
  destruct (Z.Even_or_Odd q) as [[a ->] | [a ->]].
  - exists (a * (2 * a + 1)). ring.
  - exists ((2 * a + 1) * (a + 1)). ring.
Qed.

(** Three consecutive integers: their product is a multiple of six. *)
Lemma consecutive_six (q : Z) : exists k, q * (q + 1) * (q + 2) = k * 6.
Proof.
  assert (H : (q * (q + 1) * (q + 2)) mod 6 = 0).
  { rewrite Z.mul_mod, (Z.mul_mod q), (Z.add_mod q 1), (Z.add_mod q 2) by lia.
    pose proof (Z.mod_pos_bound q 6 ltac:(lia)) as Hr.
    assert (Hc : q mod 6 = 0 \/ q mod 6 = 1 \/ q mod 6 = 2 \/ q mod 6 = 3
                 \/ q mod 6 = 4 \/ q mod 6 = 5) by lia.
    destruct Hc as [E | [E | [E | [E | [E | E]]]]]; rewrite E; reflexivity. }
  exists (q * (q + 1) * (q + 2) / 6).
  pose proof (Z.div_mod (q * (q + 1) * (q + 2)) 6 ltac:(lia)). lia.
Qed.

(** On an exact multiple the truncating and the flooring quotient agree,
    and an [int] dividend gives an [int] quotient. *)
Lemma int_div_exact (k d : Z) :
  0 < d -> fits (k * d) -> int_div (k * d) d = k * d / d.
Proof.
  intros Hd Hf. unfold int_div.
  rewrite Z.quot_mul, Z.div_mul by lia.
  apply wrap32_fits. unfold fits, INT_MIN, INT_MAX in *. nia.
Qed.

End MachineIntFacts.

(* ===================================================================== *)
(** * geometry.hpp: quadrature point counts *)
(* ===================================================================== *)

Section GeometryFacts.
Import MachineInt.
Import Geometry.

Lemma supported_cases (g : Type_) :
  supported g <->
  g = SEGMENT \/ g = TRIANGLE \/ g = SQUARE \/ g = TETRAHEDRON \/ g = CUBE.
Proof.
  unfold supported. destruct g; cbn; split; intros H;
    try congruence; try tauto;
    repeat (destruct H as [H | H]; try discriminate H); try discriminate H.
Qed.

(** Where nothing overflows the code computes the closed form. *)
Lemma num_quadrature_points_closed_form (g : Type_) (q : Z) :
  fits q -> no_overflow g q ->
  num_quadrature_points g q = point_count g q.
Proof.
  intros Hq Hno. destruct g; cbn in *; try reflexivity.
  - destruct Hno as [H1 H2]. unfold int_mul, int_add.
    rewrite (wrap32_fits (q + 1)), (wrap32_fits (q * (q + 1))) by assumption.
    destruct (consecutive_even q) as [k Hk]. rewrite Hk in *.
    apply int_div_exact; [lia | assumption].
  - unfold int_mul. apply wrap32_fits. assumption.
  - destruct Hno as (H1 & H2 & H3 & H4). unfold int_mul, int_add.
    rewrite (wrap32_fits (q + 1)), (wrap32_fits (q * (q + 1))),
      (wrap32_fits (q + 2)), (wrap32_fits (q * (q + 1) * (q + 2)))
      by assumption.
    destruct (consecutive_six q) as [k Hk]. rewrite Hk in *.
    apply int_div_exact; [lia | assumption].
  - destruct Hno as [H1 H2]. unfold int_mul.
    rewrite (wrap32_fits (q * q)), (wrap32_fits (q * q * q)) by assumption.
    reflexivity.
Qed.

(** The closed forms are positive for a positive number of points per
    dimension. *)
Lemma point_count_positive (g : Type_) (q : Z) :
  supported g -> 1 <= q -> 1 <= point_count g q.
Proof.
  intros Hs Hq. apply supported_cases in Hs.
  destruct Hs as [-> | [-> | [-> | [-> | ->]]]]; cbn.
  - assumption.
  - destruct (consecutive_even q) as [k Hk]. rewrite Hk, Z.div_mul by lia. nia.
  - nia.
  - destruct (consecutive_six q) as [k Hk]. rewrite Hk, Z.div_mul by lia. nia.
  - nia.
Qed.

(** Up to 1289 points per dimension no geometry overflows. *)
Lemma no_overflow_small (g : Type_) (q : Z) :
  -1290 <= q <= 1289 -> fits q /\ no_overflow g q.
Proof.
  intros Hq. unfold fits, INT_MIN, INT_MAX.
  split; [lia |]. destruct g; cbn; unfold fits, INT_MIN, INT_MAX; try exact I.
  - split; nia.
  - nia.
  - assert (-1290 * 1289 <= q * (q + 1) <= 1290 * 1289) by nia.
    repeat split; try nia.
  - assert (0 <= q * q <= 1290 * 1290) by nia.
    repeat split; try nia.
Qed.

End GeometryFacts.

Section QuadraturePoints.
Import MachineInt.
Import Geometry.

(** C9 (as amended): for every [int] [q] whose evaluation overflows no
    intermediate [int], [num_quadrature_points g q] is [q] for a segment,
    [q(q+1)/2] for a triangle, [q*q] for a square, [q(q+1)(q+2)/6] for a
    tetrahedron, [q*q*q] for a cube; on such a [q >= 1] a geometry that
    [dimension_of] supports has at least one point; and every other
    geometry gives [-1], whatever [q] is. *)
Theorem num_quadrature_points_without_overflow (g : Type_) (q : Z) :
  fits q -> no_overflow g q ->
  num_quadrature_points g q = point_count g q
  /\ (supported g -> 1 <= q -> 1 <= num_quadrature_points g q)
  /\ (forall q' : Z, ~ supported g -> num_quadrature_points g q' = -1).
Proof.
  intros Hq Hno.
  pose proof (num_quadrature_points_closed_form g q Hq Hno) as Heq.
  split; [exact Heq |]. split.
  - intros Hs H1. rewrite Heq. apply point_count_positive; assumption.
  - intros q' Hns. rewrite supported_cases in Hns.
    destruct g; cbn; try reflexivity; exfalso; apply Hns; tauto.
Qed.

(** Ten points on a tetrahedron with three points per dimension. *)
Lemma num_quadrature_points_tetrahedron_3 :
  num_quadrature_points TETRAHEDRON 3 = 10
  /\ (supported TETRAHEDRON -> 1 <= 3 ->
      1 <= num_quadrature_points TETRAHEDRON 3)
  /\ (forall q' : Z, ~ supported TETRAHEDRON ->
      num_quadrature_points TETRAHEDRON q' = -1).
Proof.
  apply (num_quadrature_points_without_overflow TETRAHEDRON 3).
  - unfold fits, INT_MIN, INT_MAX. lia.
  - cbn. unfold fits, INT_MIN, INT_MAX. lia.
Defined.

(** C9 as stated fails where the [int] arithmetic overflows: with 65536
    points per dimension a square gets [0] points, which is neither
    [65536 * 65536] (no [int] is) nor at least one; with 1290 a
    tetrahedron gets a negative count although [1290 * 1291 * 1292 / 6]
    is an [int]. *)
Lemma num_quadrature_points_overflow :
  fits 65536 /\ supported SQUARE
  /\ num_quadrature_points SQUARE 65536 = 0
  /\ num_quadrature_points SQUARE 65536 <> 65536 * 65536
  /\ ~ fits (65536 * 65536)
  /\ ~ 1 <= num_quadrature_points SQUARE 65536
  /\ fits 1290 /\ fits (1290 * 1291 * 1292 / 6)
  /\ num_quadrature_points TETRAHEDRON 1290 = -357213902
  /\ num_quadrature_points TETRAHEDRON 1290 <> 1290 * 1291 * 1292 / 6.
Proof.
  unfold fits, INT_MIN, INT_MAX, supported.
  repeat split; try (vm_compute; congruence); try (cbn; lia).
Qed.

(** X1: with 1 to 1289 points per dimension a supported geometry of
    dimension [d] has at least one point and at most the [q ^ d] points of
    the tensor-product rule, which the segment, the square and the cube
    attain. *)
Theorem num_quadrature_points_tensor_bound (g : Type_) (q : Z) :
  supported g -> 1 <= q <= 1289 ->
  1 <= num_quadrature_points g q <= q ^ dimension_of g
  /\ (g = SEGMENT \/ g = SQUARE \/ g = CUBE ->
      num_quadrature_points g q = q ^ dimension_of g).
Proof.
  intros Hs Hq.
  destruct (no_overflow_small g q ltac:(lia)) as [Hf Hno].
  rewrite (num_quadrature_points_closed_form g q Hf Hno).
  pose proof (point_count_positive g q Hs ltac:(lia)) as Hpos.
  apply supported_cases in Hs.
  destruct Hs as [-> | [-> | [-> | [-> | ->]]]]; cbn [point_count] in *;
    change (dimension_of SEGMENT) with 1;
    change (dimension_of TRIANGLE) with 2;
    change (dimension_of SQUARE) with 2;
    change (dimension_of TETRAHEDRON) with 3;
    change (dimension_of CUBE) with 3.
  - rewrite Z.pow_1_r. split; [lia | reflexivity].
  - split; [| intros [H | [H | H]]; discriminate H].
    split; [exact Hpos |].
    destruct (consecutive_even q) as [k Hk].
    rewrite Hk, Z.div_mul in * by lia. nia.
  - replace (q ^ 2) with (q * q) by ring. split; [lia | reflexivity].
  - split; [| intros [H | [H | H]]; discriminate H].
    split; [exact Hpos |].
    destruct (consecutive_six q) as [k Hk].
    rewrite Hk, Z.div_mul in * by lia.
    replace (q ^ 3) with (q * q * q) by ring.
    assert (q * (q + 1) <= 2 * (q * q)) by nia.
    assert (q + 2 <= 3 * q) by lia.
    assert (q * (q + 1) * (q + 2) <= 2 * (q * q) * (3 * q)) by nia.
    nia.
  - replace (q ^ 3) with (q * q * q) by ring. split; [lia | reflexivity].
Qed.

(** Four points per dimension on a triangle. *)
Lemma num_quadrature_points_triangle_4 :
  1 <= num_quadrature_points TRIANGLE 4 <= 4 ^ dimension_of TRIANGLE
  /\ (TRIANGLE = SEGMENT \/ TRIANGLE = SQUARE \/ TRIANGLE = CUBE ->
      num_quadrature_points TRIANGLE 4 = 4 ^ dimension_of TRIANGLE).
Proof.
  apply (num_quadrature_points_tensor_bound TRIANGLE 4).
  - unfold supported. cbn. lia.
  - lia.
Defined.

End QuadraturePoints.

(* ===================================================================== *)
(** * The physics module: forward steps and reverse steps *)
(* ===================================================================== *)

Section BasePhysicsFacts.
Import BasePhysics.
Context {St : Type}.
Variable solve : St -> gmap Z Field -> double -> Solve St.
Variable adjoint : Checkpoint St -> gmap string Dual -> Sensitivities.

(** What a successful forward step did. *)
Lemma advanceTimestep_Ok (view : FieldRef -> Field) (p p' : Physics St)
    (dt dt' : double) :
  advanceTimestep solve view p dt = Ok p' dt' ->
  solve (primal p) (view <$> parameters p) dt = Converged (primal p') dt'
  /\ phase p' = SteppingForward
  /\ parameters p' = parameters p
  /\ cycle p' = cycle p + 1
  /\ checkpoints p'
     = {| ck_state := primal p'; ck_cycle := cycle p + 1; ck_dt := dt';
          ck_previous := primal p |} :: checkpoints p
  /\ sensitivities p' = sensitivities p.
Proof.
  unfold advanceTimestep. intros H.
  destruct (phase p); try discriminate H;
    destruct (solve (primal p) (view <$> parameters p) dt) as [next dta | last];
    try discriminate H; injection H as <- <-; cbn; auto 10.
Qed.

(** A forward step is refused only in the wrong phase or by the solve. *)
Lemma advanceTimestep_Fatal (view : FieldRef -> Field) (p p' : Physics St)
    (dt : double) (e : Error) :
  advanceTimestep solve view p dt = Fatal e p' ->
  (e = InvalidState /\ p' = p)
  \/ (e = ConvergenceFailure /\ cycle p' = cycle p
      /\ checkpoints p' = checkpoints p).
Proof.
  unfold advanceTimestep. intros H.
  destruct (phase p);
    try (injection H as <- <-; left; split; reflexivity);
    destruct (solve (primal p) (view <$> parameters p) dt) as [next dta | last];
    try discriminate H; injection H as <- <-; right; cbn; auto.
Qed.

Lemma fresh_pending (p : Physics St) : fresh p -> pending 0 p.
Proof. intros (Hp & Hc & Hk). unfold pending. rewrite Hc, Hk. auto. Qed.

Lemma forward_counts (k : nat) (p p' : Physics St) :
  forward solve k p p' ->
  cycle p' = cycle p + Z.of_nat k
  /\ length (checkpoints p') = (length (checkpoints p) + k)%nat
  /\ (0 < k -> phase p' = SteppingForward)%nat.
Proof.
  induction 1 as [p | k p p1 p2 view dt dta _ IH Hstep].
  - cbn. repeat split; try lia.
  - destruct IH as (IHc & IHl & _).
    apply advanceTimestep_Ok in Hstep.
    destruct Hstep as (_ & Hph & _ & Hc & Hk & _).
    rewrite Hc, Hk, IHc. cbn [length]. rewrite IHl.
    repeat split; try lia. intros _. exact Hph.
Qed.

Lemma forward_pending (k : nat) (p p' : Physics St) :
  fresh p -> forward solve k p p' -> pending k p'.
Proof.
  intros (Hp & Hc & Hk) Hf.
  destruct (forward_counts k p p' Hf) as (Hc' & Hl' & Hph').
  rewrite Hc in Hc'. rewrite Hk in Hl'. cbn in Hl'.
  unfold pending. repeat split; try assumption; try lia.
  destruct k as [| k].
  - inversion Hf; subst. auto.
  - left. apply Hph'. lia.
Qed.

(** With a checkpoint pending a reverse step succeeds and consumes it. *)
Lemma reverseAdjointTimestep_pending (n : nat) (p : Physics St)
    (l : gmap string Dual) :
  pending (S n) p ->
  exists p', reverseAdjointTimestep adjoint p l = Ok p' tt /\ pending n p'.
Proof.
  intros (Hc & Hl & Hph). unfold reverseAdjointTimestep.
  destruct (checkpoints p) as [| ck older] eqn:Hk; [discriminate Hl |].
  cbn in Hl. injection Hl as Hl.
  assert (Hstep :
    exists p', Ok {| phase := if decide (cycle p - 1 = 0) then Complete
                              else SteppingBackward;
                     primal := primal p; parameters := parameters p;
                     material := material p; cycle := cycle p - 1;
                     checkpoints := older;
                     sensitivities :=
                       accumulate (sensitivities p) (adjoint ck l) |} tt
               = Ok p' tt /\ pending n p').
  { eexists. split; [reflexivity |]. unfold pending. cbn.
    repeat split; try lia; try assumption.
    destruct n as [| n].
    - right. destruct (decide (cycle p - 1 = 0)); [reflexivity | lia].
    - right. destruct (decide (cycle p - 1 = 0)); [lia | reflexivity]. }
  destruct Hph as [-> | ->]; exact Hstep.
Qed.

(** With nothing pending a reverse step is an [InvalidState] error. *)
Lemma reverseAdjointTimestep_exhausted (p : Physics St)
    (l : gmap string Dual) :
  pending 0 p -> reverseAdjointTimestep adjoint p l = Fatal InvalidState p.
Proof.
  intros (_ & _ & Hph). unfold reverseAdjointTimestep.
  destruct Hph as [-> | ->]; reflexivity.
Qed.

Lemma reverse_pending (loads : list (gmap string Dual)) (p : Physics St) :
  pending (length loads) p ->
  exists p', reverse adjoint p loads = Ok p' tt /\ pending 0 p'.
Proof.
  revert p. induction loads as [| l rest IH]; intros p Hp.
  - exists p. split; [reflexivity | exact Hp].
  - cbn [length] in Hp.
    destruct (reverseAdjointTimestep_pending _ p l Hp) as (p1 & Hr & Hp1).
    destruct (IH p1 Hp1) as (p2 & Hrest & Hp2).
    exists p2. split; [| exact Hp2].
    cbn [reverse]. rewrite Hr. exact Hrest.
Qed.

End BasePhysicsFacts.

Section AdjointPass.
Import BasePhysics.
Context {St : Type}.
Variable solve : St -> gmap Z Field -> double -> Solve St.
Variable adjoint : Checkpoint St -> gmap string Dual -> Sensitivities.

(** C3: after [N] calls of [advanceTimestep] on a freshly configured
    module, [N] calls of [reverseAdjointTimestep] all succeed and leave the
    cycle counter at exactly 0, and one more call of
    [reverseAdjointTimestep] fails with [InvalidState]. *)
Theorem reverse_returns_to_cycle_zero (N : nat) (p0 p1 : Physics St)
    (loads : list (gmap string Dual)) :
  fresh p0 ->
  forward solve N p0 p1 ->
  length loads = N ->
  exists p2 : Physics St,
    reverse adjoint p1 loads = Ok p2 tt
    /\ cycle p2 = 0
    /\ forall l : gmap string Dual,
         reverseAdjointTimestep adjoint p2 l = Fatal InvalidState p2.
Proof.
  intros Hfresh Hfwd Hlen.
  pose proof (forward_pending solve N p0 p1 Hfresh Hfwd) as Hp1.
  rewrite <- Hlen in Hp1.
  destruct (reverse_pending adjoint loads p1 Hp1) as (p2 & Hrev & Hp2).
  exists p2. split; [exact Hrev |]. split.
  - destruct Hp2 as (Hc & _). exact Hc.
  - intros l. apply reverseAdjointTimestep_exhausted. exact Hp2.
Qed.

End AdjointPass.

Section AdjointPassScenario.
Import BasePhysics.
Import Scenario.

Lemma thermal_ready_fresh : fresh thermal_ready.
Proof. repeat split. Qed.

Lemma thermal_two_steps :
  forward heat 2 thermal_ready (advanced (advanced thermal_ready)).
Proof.
  eapply forward_step with (view := no_field) (dt := 0.125%float).
  - eapply forward_step with (view := no_field) (dt := 0.125%float).
    + apply forward_none.
    + vm_compute. reflexivity.
  - vm_compute. reflexivity.
Defined.

(** Two forward steps of the heat-transfer module, two reverse steps. *)
Lemma reverse_two_steps :
  exists p2 : Physics Field,
    reverse pull_back (advanced (advanced thermal_ready)) [∅; ∅] = Ok p2 tt
    /\ cycle p2 = 0
    /\ forall l : gmap string Dual,
         reverseAdjointTimestep pull_back p2 l = Fatal InvalidState p2.
Proof.
  apply (reverse_returns_to_cycle_zero heat pull_back 2 thermal_ready).
  - exact thermal_ready_fresh.
  - exact thermal_two_steps.
  - reflexivity.
Defined.

End AdjointPassScenario.

(* ===================================================================== *)
(** * thermomechanics.hpp: the coupled step *)
(* ===================================================================== *)

Section TimestepFacts.
Import Thermomechanics.

(** [std::abs(dt - dt) > 1.0e-6] is false for every [double], the
    infinities and NaN included. *)
Lemma dt_unchanged (dt : double) : dt_changed dt dt = false.
Proof.
  unfold dt_changed. rewrite ltb_spec, abs_spec, sub_spec.
  destruct (Prim2SF dt) as [s | s | | s m e]; try (destruct s; reflexivity).
  - reflexivity.
  - unfold SF64sub, SFsub. rewrite Z.sub_diag. destruct s; reflexivity.
Qed.

End TimestepFacts.

Section CoupledStepFacts.
Import BasePhysics.
Import Thermomechanics.
Variable thermal_solve : Field -> gmap Z Field -> double -> Solve Field.
Variable solid_solve :
  Field * Field -> gmap Z Field -> double -> Solve (Field * Field).

Local Abbreviation step := (advanceTimestep thermal_solve solid_solve).

(** The coupled step once both sub-steps have returned. *)
Lemma advanceTimestep_both_returned (user : nat -> Field) (m : t)
    (dt dt1 dt2 : double) (th : HeatTransfer) (so : SolidMechanics) :
  coupling_ m = OperatorSplit ->
  BasePhysics.advanceTimestep thermal_solve (view user m) (thermal_ m) dt
  = Ok th dt1 ->
  BasePhysics.advanceTimestep solid_solve (view user (with_thermal m th))
    (solid_ m) dt1 = Ok so dt2 ->
  step user m dt
  = if dt_changed dt2 dt
    then Fatal InconsistentTimestep (with_solid (with_thermal m th) so)
    else Ok (with_cycle (with_solid (with_thermal m th) so) (cycle_ m + 1))
            dt2.
Proof.
  intros Hc Hth Hso. unfold advanceTimestep.
  rewrite Hc, Hth. cbn [bind lift solid_ with_thermal]. rewrite Hso.
  reflexivity.
Qed.

(** What a successful coupled step did. *)
Lemma advanceTimestep_coupled_Ok (user : nat -> Field) (m m' : t)
    (dt dt' : double) :
  step user m dt = Ok m' dt' ->
  coupling_ m = OperatorSplit
  /\ exists (th : HeatTransfer) (so : SolidMechanics) (dt1 : double),
       BasePhysics.advanceTimestep thermal_solve (view user m) (thermal_ m) dt
       = Ok th dt1
       /\ BasePhysics.advanceTimestep solid_solve
            (view user (with_thermal m th)) (solid_ m) dt1 = Ok so dt'
       /\ dt_changed dt' dt = false
       /\ m' = with_cycle (with_solid (with_thermal m th) so) (cycle_ m + 1).
Proof.
  unfold advanceTimestep. intros H.
  destruct (coupling_ m) eqn:Hc; [| discriminate H].
  split; [reflexivity |].
  destruct (BasePhysics.advanceTimestep thermal_solve (view user m)
              (thermal_ m) dt) as [th dt1 | e th] eqn:Hth;
    cbn [bind lift solid_ with_thermal] in H; [| discriminate H].
  destruct (BasePhysics.advanceTimestep solid_solve
              (view user (with_thermal m th)) (solid_ m) dt1)
    as [so dt2 | e so] eqn:Hso; cbn [bind lift] in H; [| discriminate H].
  destruct (dt_changed dt2 dt) eqn:Hdt; [discriminate H |].
  injection H as <- <-.
  exists th, so, dt1. auto.
Qed.

(** A coupled step leaves the module as it was when it is refused for the
    coupling strategy. *)
Lemma advanceTimestep_not_split (user : nat -> Field) (m : t) (dt : double) :
  coupling_ m <> OperatorSplit ->
  step user m dt = Fatal UnsupportedOperation m.
Proof.
  intros Hc. unfold advanceTimestep.
  destruct (coupling_ m); [congruence | reflexivity].
Qed.

Lemma forward_cycle (k : nat) (m m' : t) :
  forward thermal_solve solid_solve k m m' ->
  cycle_ m' = cycle_ m + Z.of_nat k
  /\ coupling_ m' = coupling_ m
  /\ cycle (thermal_ m') = cycle (thermal_ m) + Z.of_nat k
  /\ cycle (solid_ m') = cycle (solid_ m) + Z.of_nat k
  /\ length (checkpoints (thermal_ m'))
     = (length (checkpoints (thermal_ m)) + k)%nat
  /\ length (checkpoints (solid_ m'))
     = (length (checkpoints (solid_ m)) + k)%nat.
Proof.
  induction 1 as [m | k m m1 m2 user dt dta _ IH Hstep].
  - cbn. repeat split; lia.
  - destruct IH as (IHc & IHs & IHt & IHo & IHkt & IHko).
    apply advanceTimestep_coupled_Ok in Hstep.
    destruct Hstep as (_ & th & so & dt1 & Hth & Hso & _ & ->).
    apply advanceTimestep_Ok in Hth. apply advanceTimestep_Ok in Hso.
    destruct Hth as (_ & _ & _ & Htc & Htk & _).
    destruct Hso as (_ & _ & _ & Hoc & Hok & _).
    cbn. rewrite Htc, Htk, Hoc, Hok. cbn [length].
    repeat split; try lia. exact IHs.
Qed.

End CoupledStepFacts.

Section SetupFacts.
Import MachineInt.
Import BasePhysics.
Import Thermomechanics.

Lemma create_Ok (dim : Z) (mesh : Mesh) (name : string) (m : t) :
  create dim mesh name = Ok tt m ->
  cycle_ m = 0 /\ coupling_ m = OperatorSplit /\ coupled m
  /\ cycle (thermal_ m) = 0 /\ cycle (solid_ m) = 0
  /\ checkpoints (thermal_ m) = [] /\ checkpoints (solid_ m) = []
  /\ stateNames m = ["displacement"; "velocity"; "temperature"]%string
  /\ states_ m = [ThermalTemperature; SolidVelocity; SolidDisplacement].
Proof.
  unfold create. intros H.
  destruct (negb (Dimension mesh =? dim)); [discriminate H |].
  injection H as <-. unfold coupled. cbn.
  repeat split; try reflexivity; apply lookup_insert_eq.
Qed.

Lemma setup_untouched (m m' : t) : setup m m' -> untouched m m'.
Proof.
  unfold untouched.
  induction 1 as [m | m m' ps i _ IH _ | m m' a _ IH | m m' T _ IH
                  | m m' u _ IH]; cbn; auto 10.
Qed.

Lemma completeSetup_Ok (m m' : t) :
  completeSetup m = Ok m' tt ->
  untouched m m'
  /\ parameters (thermal_ m') = parameters (thermal_ m)
  /\ parameters (solid_ m') = parameters (solid_ m)
  /\ phase (thermal_ m') = Configured /\ phase (solid_ m') = Configured.
Proof.
  unfold completeSetup, untouched. intros H.
  destruct (negb (CouplingScheme_eqb (coupling_ m) OperatorSplit));
    [discriminate H |].
  unfold BasePhysics.completeSetup in H.
  destruct (phase (thermal_ m)); cbn in H; try discriminate H.
  destruct (material (thermal_ m)); cbn in H; try discriminate H.
  destruct (phase (solid_ m)); cbn in H; try discriminate H.
  destruct (material (solid_ m)); cbn in H; try discriminate H.
  injection H as <-. cbn. auto 12.
Qed.

Lemma configured_fresh (m : t) :
  configured m ->
  cycle_ m = 0 /\ coupling_ m = OperatorSplit
  /\ cycle (thermal_ m) = 0 /\ cycle (solid_ m) = 0
  /\ checkpoints (thermal_ m) = [] /\ checkpoints (solid_ m) = [].
Proof.
  intros [dim mesh name m0 m1 m2 Hcreate Hsetup Hcomplete].
  apply create_Ok in Hcreate.
  destruct Hcreate as (C1 & C2 & _ & C3 & C4 & C5 & C6 & _).
  apply setup_untouched in Hsetup.
  destruct Hsetup as (S1 & S2 & S3 & S4 & S5 & S6).
  apply completeSetup_Ok in Hcomplete.
  destruct Hcomplete as ((U1 & U2 & U3 & U4 & U5 & U6) & _).
  repeat split; congruence.
Qed.

(** A user parameter with an index below [SIZE_MAX] never lands in
    slot 0. *)
Lemma setParameter_keeps_coupling (m : t) (ps : FieldRef) (i : Z) :
  0 <= i < SIZE_MAX -> coupled m -> coupled (setParameter m ps i).
Proof.
  intros Hi [Ht Hs]. unfold coupled. cbn.
  rewrite size_add_small by (unfold SIZE_MAX in *; lia).
  rewrite !lookup_insert_ne by lia. auto.
Qed.

Lemma setParameters_keep_coupling (calls : list (FieldRef * Z)) (m : t) :
  Forall (fun c => 0 <= snd c < SIZE_MAX) calls ->
  coupled m -> coupled (setParameters m calls).
Proof.
  intros Hall. revert m.
  induction Hall as [| [ps i] rest Hi _ IH]; intros m Hm.
  - exact Hm.
  - cbn. apply IH. apply setParameter_keeps_coupling; assumption.
Qed.

End SetupFacts.

Section CoupledClaims.
Import MachineInt.
Import BasePhysics.
Import Thermomechanics.
Variable thermal_solve : Field -> gmap Z Field -> double -> Solve Field.
Variable solid_solve :
  Field * Field -> gmap Z Field -> double -> Solve (Field * Field).

Local Abbreviation step := (advanceTimestep thermal_solve solid_solve).

(** C2 (as amended): under operator split, once both sub-steps have
    returned, [advanceTimestep] compares the timestep the solid sub-step
    left with the one it was called with, once, and is a fatal
    [InconsistentTimestep] error exactly when they differ by more than
    [1.0e-6]; otherwise the step succeeds and returns the timestep the
    solid sub-step left.  When both sub-modules leave the timestep
    unmodified the step succeeds and returns it unchanged. *)
Theorem advanceTimestep_timestep_check (user : nat -> Field) (m : t)
    (dt dt1 dt2 : double) (th : HeatTransfer) (so : SolidMechanics) :
  coupling_ m = OperatorSplit ->
  BasePhysics.advanceTimestep thermal_solve (view user m) (thermal_ m) dt
  = Ok th dt1 ->
  BasePhysics.advanceTimestep solid_solve (view user (with_thermal m th))
    (solid_ m) dt1 = Ok so dt2 ->
  (dt_changed dt2 dt = true ->
   step user m dt
   = Fatal InconsistentTimestep (with_solid (with_thermal m th) so))
  /\ (dt_changed dt2 dt = false ->
      step user m dt
      = Ok (with_cycle (with_solid (with_thermal m th) so) (cycle_ m + 1))
           dt2)
  /\ (dt1 = dt -> dt2 = dt ->
      step user m dt
      = Ok (with_cycle (with_solid (with_thermal m th) so) (cycle_ m + 1))
           dt).
Proof.
  intros Hc Hth Hso.
  pose proof (advanceTimestep_both_returned thermal_solve solid_solve
                user m dt dt1 dt2 th so Hc Hth Hso) as Hstep.
  split; [| split].
  - intros Hd. rewrite Hstep, Hd. reflexivity.
  - intros Hd. rewrite Hstep, Hd. reflexivity.
  - intros _ ->. rewrite Hstep, dt_unchanged. reflexivity.
Qed.

(** C4 (as amended): a successful operator-split step advances each
    sub-module exactly once, the thermal one first.  The thermal solve
    reads as parameter 0 the displacement as the previous coupling step
    left it; the solid solve reads as parameter 0 the temperature the
    thermal solve of the same step has just produced; and the cross
    coupling is still in place for the next step. *)
Theorem advanceTimestep_exchange (user : nat -> Field) (m m' : t)
    (dt dt' : double) :
  coupled m ->
  step user m dt = Ok m' dt' ->
  exists dt1 : double,
    let thermal_parameters := view user m <$> parameters (thermal_ m) in
    let solid_parameters :=
      view user (with_thermal m (thermal_ m')) <$> parameters (solid_ m) in
    thermal_solve (temperature m) thermal_parameters dt
    = Converged (temperature m') dt1
    /\ thermal_parameters !! 0 = Some (displacement m)
    /\ solid_solve (displacement m, velocity m) solid_parameters dt1
       = Converged (displacement m', velocity m') dt'
    /\ solid_parameters !! 0 = Some (temperature m')
    /\ cycle (thermal_ m') = cycle (thermal_ m) + 1
    /\ cycle (solid_ m') = cycle (solid_ m) + 1
    /\ length (checkpoints (thermal_ m'))
       = S (length (checkpoints (thermal_ m)))
    /\ length (checkpoints (solid_ m'))
       = S (length (checkpoints (solid_ m)))
    /\ coupled m'.
Proof.
  intros [Hct Hcs] Hstep.
  apply advanceTimestep_coupled_Ok in Hstep.
  destruct Hstep as (_ & th & so & dt1 & Hth & Hso & _ & ->).
  apply advanceTimestep_Ok in Hth. apply advanceTimestep_Ok in Hso.
  destruct Hth as (Tsolve & _ & Tpar & Tcyc & Tck & _).
  destruct Hso as (Ssolve & _ & Spar & Scyc & Sck & _).
  exists dt1. cbn zeta. unfold temperature, displacement, velocity, coupled.
  cbn [thermal_ solid_ with_cycle with_solid with_thermal] in *.
  rewrite Tck, Sck, Tpar, Spar, !lookup_fmap, Hct, Hcs.
  rewrite <- !surjective_pairing.
  repeat split; auto.
Qed.

(** X2: a coupled step that stops the run leaves the cycle counter and the
    coupling strategy of the module as they were: the counter is
    incremented last, after the timestep check. *)
Theorem advanceTimestep_Fatal_keeps_cycle (user : nat -> Field) (m m' : t)
    (dt : double) (e : Error) :
  step user m dt = Fatal e m' ->
  cycle_ m' = cycle_ m /\ coupling_ m' = coupling_ m.
Proof.
  unfold advanceTimestep. intros H.
  destruct (coupling_ m) eqn:Hc;
    [| injection H as <- <-; rewrite Hc; auto].
  destruct (BasePhysics.advanceTimestep thermal_solve (view user m)
              (thermal_ m) dt) as [th dt1 | e1 th];
    cbn [bind lift solid_ with_thermal] in H;
    [| injection H as <- <-; cbn; auto].
  destruct (BasePhysics.advanceTimestep solid_solve
              (view user (with_thermal m th)) (solid_ m) dt1)
    as [so dt2 | e2 so]; cbn [bind lift] in H;
    [| injection H as <- <-; cbn; auto].
  destruct (dt_changed dt2 dt); [| discriminate H].
  injection H as <- <-. cbn. auto.
Qed.

(** C5: with any coupling strategy other than operator split selected,
    [completeSetup()] is a fatal [UnsupportedOperation] error that leaves
    the module and its sub-modules as they were, [advanceTimestep] is the
    same error, and no forward step ever succeeds. *)
Theorem only_operator_split_is_supported (m : t) :
  coupling_ m <> OperatorSplit ->
  completeSetup m = Fatal UnsupportedOperation m
  /\ (forall (user : nat -> Field) (dt : double),
        step user m dt = Fatal UnsupportedOperation m)
  /\ (forall (k : nat) (m' : t),
        forward thermal_solve solid_solve k m m' -> k = 0%nat /\ m' = m).
Proof.
  intros Hc. split; [| split].
  - unfold completeSetup. destruct (coupling_ m); [congruence | reflexivity].
  - intros user dt. apply advanceTimestep_not_split. exact Hc.
  - intros k m' Hf.
    induction Hf as [m | k m m1 m2 user dt dta _ IH Hstep].
    + auto.
    + destruct (IH Hc) as [_ ->].
      rewrite advanceTimestep_not_split in Hstep by exact Hc.
      discriminate Hstep.
Qed.

(** C6: from a freshly configured module, after [k] successful calls of
    [advanceTimestep] the cycle counter is [k] and each sub-module holds
    [k] checkpoints; one more successful call increments the counter by
    exactly one and appends one checkpoint to each sub-module. *)
Theorem advanceTimestep_counts_cycles (k : nat) (m m' : t) :
  configured m ->
  forward thermal_solve solid_solve k m m' ->
  cycle_ m' = Z.of_nat k
  /\ length (checkpoints (thermal_ m')) = k
  /\ length (checkpoints (solid_ m')) = k
  /\ forall (user : nat -> Field) (dt dt' : double) (m'' : t),
       step user m' dt = Ok m'' dt' ->
       cycle_ m'' = cycle_ m' + 1
       /\ (exists ck, checkpoints (thermal_ m'')
                      = ck :: checkpoints (thermal_ m'))
       /\ (exists ck, checkpoints (solid_ m'')
                      = ck :: checkpoints (solid_ m')).
Proof.
  intros Hconf Hf.
  destruct (configured_fresh m Hconf) as (C1 & _ & _ & _ & C5 & C6).
  destruct (forward_cycle thermal_solve solid_solve k m m' Hf)
    as (F1 & _ & _ & _ & F5 & F6).
  rewrite C1 in F1. rewrite C5 in F5. rewrite C6 in F6. cbn in F5, F6.
  split; [lia |]. split; [exact F5 |]. split; [exact F6 |].
  intros user dt dt' m'' Hstep.
  apply advanceTimestep_coupled_Ok in Hstep.
  destruct Hstep as (_ & th & so & dt1 & Hth & Hso & _ & ->).
  apply advanceTimestep_Ok in Hth. apply advanceTimestep_Ok in Hso.
  destruct Hth as (_ & _ & _ & _ & Htk & _).
  destruct Hso as (_ & _ & _ & _ & Hsk & _).
  cbn. split; [reflexivity |]. split; eauto.
Qed.

End CoupledClaims.

Section AccessorClaims.
Import MachineInt.
Import BasePhysics.
Import Thermomechanics.

(** C8: [stateNames()] is exactly ["displacement"], ["velocity"],
    ["temperature"]; [state] of each of them returns the field of that
    name of the sub-module owning it; [state] of any other name is a fatal
    error. *)
Theorem state_of_each_name (m : t) :
  stateNames m = ["displacement"; "velocity"; "temperature"]%string
  /\ state m "displacement" = Ok m (fst (primal (solid_ m)))
  /\ state m "velocity" = Ok m (snd (primal (solid_ m)))
  /\ state m "temperature" = Ok m (primal (thermal_ m))
  /\ forall name : string,
       ~ In name (stateNames m) -> state m name = Fatal UnknownState m.
Proof.
  repeat split; try reflexivity.
  intros name Hname. unfold state.
  destruct (String.eqb_spec name "displacement") as [-> | _];
    [exfalso; apply Hname; cbn; auto |].
  destruct (String.eqb_spec name "velocity") as [-> | _];
    [exfalso; apply Hname; cbn; auto |].
  destruct (String.eqb_spec name "temperature") as [-> | _];
    [exfalso; apply Hname; cbn; auto |].
  reflexivity.
Qed.

(** C10 (as amended): the constructor puts the displacement in slot 0 of
    the thermal sub-module and the temperature in slot 0 of the solid
    sub-module; a user call [setParameter(parameter_state, i)] with
    [i < SIZE_MAX] registers the field in slot [i + 1 >= 1] of both
    sub-modules and changes no other slot, so after any number of such
    calls slot 0 of each sub-module still holds the coupling field. *)
Theorem user_parameters_leave_slot_0 (dim : Z) (mesh : Mesh) (name : string)
    (m0 : t) (calls : list (FieldRef * Z)) (parameter_state : FieldRef)
    (i : Z) :
  create dim mesh name = Ok tt m0 ->
  Forall (fun c => 0 <= snd c < SIZE_MAX) calls ->
  0 <= i < SIZE_MAX ->
  let m := setParameters m0 calls in
  let m' := setParameter m parameter_state i in
  parameters (thermal_ m0) !! 0 = Some SolidDisplacement
  /\ parameters (solid_ m0) !! 0 = Some ThermalTemperature
  /\ parameters (thermal_ m') !! (i + 1) = Some parameter_state
  /\ parameters (solid_ m') !! (i + 1) = Some parameter_state
  /\ (forall j : Z, j <> i + 1 ->
        parameters (thermal_ m') !! j = parameters (thermal_ m) !! j
        /\ parameters (solid_ m') !! j = parameters (solid_ m) !! j)
  /\ parameters (thermal_ m') !! 0 = Some SolidDisplacement
  /\ parameters (solid_ m') !! 0 = Some ThermalTemperature.
Proof.
  intros Hcreate Hcalls Hi m m'.
  apply create_Ok in Hcreate. destruct Hcreate as (_ & _ & Hm0 & _).
  assert (Hm : coupled m)
    by (apply setParameters_keep_coupling; assumption).
  assert (Hm' : coupled m')
    by (apply setParameter_keeps_coupling; assumption).
  destruct Hm0 as [Ht0 Hs0]. destruct Hm' as [Ht' Hs'].
  assert (Hslot : size_add i 1 = i + 1)
    by (apply size_add_small; unfold SIZE_MAX in *; lia).
  subst m'. cbn in *. rewrite Hslot in *.
  repeat split; try assumption; try apply lookup_insert_eq;
    apply lookup_insert_ne; congruence.
Qed.

End AccessorClaims.

(* ===================================================================== *)
(** * The claims on a concrete beam *)
(* ===================================================================== *)

Section CoupledScenario.
Import MachineInt.
Import BasePhysics.
Import Thermomechanics.
Import Scenario.

Lemma constructed_Ok : create 3 beam "beam" = Ok tt constructed.
Proof. reflexivity. Qed.

Lemma ready_Ok : completeSetup assembled = Ok ready tt.
Proof. vm_compute. reflexivity. Qed.

Lemma ready_configured : configured ready.
Proof.
  apply (configured_intro 3 beam "beam" constructed assembled ready).
  - exact constructed_Ok.
  - apply setup_temperature, setup_material, setup_done.
  - exact ready_Ok.
Qed.

Lemma ready_coupled : coupled ready.
Proof. split; vm_compute; reflexivity. Qed.

Lemma ready_stepped :
  advanceTimestep heat follow no_user ready 0.125%float
  = Ok (stepped ready) 0.125%float.
Proof. vm_compute. reflexivity. Qed.

Lemma ready_stepped_twice :
  forward heat follow 2 ready (stepped (stepped ready)).
Proof.
  eapply forward_step with (user := no_user) (dt := 0.125%float).
  - eapply forward_step with (user := no_user) (dt := 0.125%float).
    + apply forward_none.
    + exact ready_stepped.
  - vm_compute. reflexivity.
Qed.

(** One coupled step of the beam whose sub-modules keep the timestep. *)
Lemma beam_step_keeps_timestep :
  let th := thermal_ (stepped ready) in
  let so := solid_ (stepped ready) in
  let dt := 0.125%float in
  (dt_changed dt dt = true ->
   advanceTimestep heat follow no_user ready dt
   = Fatal InconsistentTimestep (with_solid (with_thermal ready th) so))
  /\ (dt_changed dt dt = false ->
      advanceTimestep heat follow no_user ready dt
      = Ok (with_cycle (with_solid (with_thermal ready th) so)
              (cycle_ ready + 1)) dt)
  /\ (dt = dt -> dt = dt ->
      advanceTimestep heat follow no_user ready dt
      = Ok (with_cycle (with_solid (with_thermal ready th) so)
              (cycle_ ready + 1)) dt).
Proof.
  apply (advanceTimestep_timestep_check heat follow no_user ready
           0.125%float 0.125%float 0.125%float
           (thermal_ (stepped ready)) (solid_ (stepped ready))).
  - vm_compute. reflexivity.
  - vm_compute. reflexivity.
  - vm_compute. reflexivity.
Defined.

(** C2 as stated fails in three ways.  A thermal sub-step that lengthens
    the timestep of [1] by [2^-21] is accepted, and the lengthened
    timestep is returned.  A thermal sub-step that doubles the timestep
    goes unnoticed when the solid sub-step halves it again.  And a thermal
    sub-step that doubles it is reported only after the solid sub-step has
    run too, on the doubled timestep. *)
Lemma altered_timestep_not_detected :
  (exists th : HeatTransfer,
     BasePhysics.advanceTimestep heat_nudging (view no_user ready)
       (thermal_ ready) 1%float = Ok th 0x1.000008p+0%float)
  /\ (0x1.000008p+0 =? 1)%float = false
  /\ (exists m' : t,
        advanceTimestep heat_nudging follow no_user ready 1%float
        = Ok m' 0x1.000008p+0%float /\ cycle_ m' = 1)
  /\ (exists th : HeatTransfer,
        BasePhysics.advanceTimestep heat_doubling (view no_user ready)
          (thermal_ ready) 1%float = Ok th 2%float)
  /\ (exists m' : t,
        advanceTimestep heat_doubling follow_halving no_user ready 1%float
        = Ok m' 1%float /\ cycle_ m' = 1)
  /\ (exists m' : t,
        advanceTimestep heat_doubling follow no_user ready 1%float
        = Fatal InconsistentTimestep m'
        /\ cycle (solid_ m') = 1
        /\ ck_dt <$> head (checkpoints (solid_ m')) = Some 2%float).
Proof.
  repeat split;
    try (eexists; vm_compute; reflexivity);
    try (eexists; split; [vm_compute; reflexivity | reflexivity]);
    try (eexists; split; [vm_compute; reflexivity
                         | split; vm_compute; reflexivity]).
Qed.

(** One coupled step of the beam: the thermal solve sees the displacement
    at rest, the solid solve the temperature just computed. *)
Lemma beam_step_exchange :
  exists dt1 : double,
    let thermal_parameters :=
      view no_user ready <$> parameters (thermal_ ready) in
    let solid_parameters :=
      view no_user (with_thermal ready (thermal_ (stepped ready)))
        <$> parameters (solid_ ready) in
    heat (temperature ready) thermal_parameters 0.125%float
    = Converged (temperature (stepped ready)) dt1
    /\ thermal_parameters !! 0 = Some (displacement ready)
    /\ follow (displacement ready, velocity ready) solid_parameters dt1
       = Converged (displacement (stepped ready), velocity (stepped ready))
           0.125%float
    /\ solid_parameters !! 0 = Some (temperature (stepped ready))
    /\ cycle (thermal_ (stepped ready)) = cycle (thermal_ ready) + 1
    /\ cycle (solid_ (stepped ready)) = cycle (solid_ ready) + 1
    /\ length (checkpoints (thermal_ (stepped ready)))
       = S (length (checkpoints (thermal_ ready)))
    /\ length (checkpoints (solid_ (stepped ready)))
       = S (length (checkpoints (solid_ ready)))
    /\ coupled (stepped ready).
Proof.
  apply (advanceTimestep_exchange heat follow no_user ready (stepped ready)
           0.125%float 0.125%float).
  - exact ready_coupled.
  - exact ready_stepped.
Defined.

(** C4 as stated fails for the solid sub-module: the coupling descriptor's
    wording has it read the temperature of the previous step, but in the
    first step of the beam the freely expanding solid takes the
    temperature [1.125] the thermal solve has just produced, not the
    temperature [1] the step started from. *)
Lemma solid_reads_updated_temperature :
  coupled ready
  /\ temperature ready = [1; 1]%float
  /\ temperature (stepped ready) = [1.125; 1.125]%float
  /\ displacement (stepped ready)
     = [1.125; 1.125; 1.125; 1.125; 1.125; 1.125]%float
  /\ ~ previous_step_exchange heat follow no_user ready 0.125%float.
Proof.
  split; [exact ready_coupled |].
  repeat split; try (vm_compute; reflexivity).
  intros Hprev.
  destruct (Hprev (stepped ready) 0.125%float ready_stepped) as [dt1 H].
  apply (f_equal (fun r : Solve (Field * Field) =>
                    match r with
                    | Converged (x :: _, _) _ => PrimFloat.eqb x 1
                    | _ => false
                    end)) in H.
  vm_compute in H. discriminate H.
Qed.

(** The step of the beam whose thermal solve doubles the timestep. *)
Lemma beam_step_refused :
  cycle_ refused = cycle_ ready /\ coupling_ refused = coupling_ ready.
Proof.
  apply (advanceTimestep_Fatal_keeps_cycle heat_doubling follow no_user
           ready refused 1%float InconsistentTimestep).
  vm_compute. reflexivity.
Defined.

(** The beam with the monolithic strategy selected. *)
Lemma monolithic_beam_refused :
  completeSetup monolithic = Fatal UnsupportedOperation monolithic
  /\ (forall (user : nat -> Field) (dt : double),
        advanceTimestep heat follow user monolithic dt
        = Fatal UnsupportedOperation monolithic)
  /\ (forall (k : nat) (m' : t),
        forward heat follow k monolithic m' ->
        k = 0%nat /\ m' = monolithic).
Proof.
  apply (only_operator_split_is_supported heat follow monolithic).
  discriminate.
Defined.

(** Two coupled steps of the beam. *)
Lemma beam_two_steps :
  let m' := stepped (stepped ready) in
  cycle_ m' = Z.of_nat 2
  /\ length (checkpoints (thermal_ m')) = 2%nat
  /\ length (checkpoints (solid_ m')) = 2%nat
  /\ forall (user : nat -> Field) (dt dt' : double) (m'' : t),
       advanceTimestep heat follow user m' dt = Ok m'' dt' ->
       cycle_ m'' = cycle_ m' + 1
       /\ (exists ck, checkpoints (thermal_ m'')
                      = ck :: checkpoints (thermal_ m'))
       /\ (exists ck, checkpoints (solid_ m'')
                      = ck :: checkpoints (solid_ m')).
Proof.
  apply (advanceTimestep_counts_cycles heat follow 2 ready
           (stepped (stepped ready))).
  - exact ready_configured.
  - exact ready_stepped_twice.
Defined.

(** Two user parameters on the beam. *)
Lemma beam_user_parameters :
  let m := setParameters constructed [(External 1, 0)] in
  let m' := setParameter m (External 2) 1 in
  parameters (thermal_ constructed) !! 0 = Some SolidDisplacement
  /\ parameters (solid_ constructed) !! 0 = Some ThermalTemperature
  /\ parameters (thermal_ m') !! (1 + 1) = Some (External 2)
  /\ parameters (solid_ m') !! (1 + 1) = Some (External 2)
  /\ (forall j : Z, j <> 1 + 1 ->
        parameters (thermal_ m') !! j = parameters (thermal_ m) !! j
        /\ parameters (solid_ m') !! j = parameters (solid_ m) !! j)
  /\ parameters (thermal_ m') !! 0 = Some SolidDisplacement
  /\ parameters (solid_ m') !! 0 = Some ThermalTemperature.
Proof.
  apply (user_parameters_leave_slot_0 3 beam "beam" constructed
           [(External 1, 0)] (External 2) 1).
  - exact constructed_Ok.
  - repeat constructor; cbn; unfold SIZE_MAX; lia.
  - unfold SIZE_MAX; lia.
Defined.

(** C10 as stated fails at the largest index: [i + 1] wraps to 0 for
    [i = SIZE_MAX], and the user field replaces the coupling field in
    slot 0 of both sub-modules. *)
Lemma setParameter_SIZE_MAX_takes_slot_0 :
  let m' := setParameter constructed (External 7) SIZE_MAX in
  coupled constructed
  /\ size_add SIZE_MAX 1 = 0
  /\ parameters (thermal_ m') !! 0 = Some (External 7)
  /\ parameters (solid_ m') !! 0 = Some (External 7)
  /\ ~ coupled m'.
Proof.
  cbv zeta. repeat split; try (vm_compute; reflexivity).
  intros [H _]. vm_compute in H. discriminate H.
Qed.

End CoupledScenario.

(* ===================================================================== *)
(** * geometry.hpp: geometry counts *)
(* ===================================================================== *)

Section MeshCountsFacts.
Import MachineInt.
Import Geometry.
Import MeshCounts.

Lemma real_geometry_index (g : Type_) :
  real_geometry g -> to_uint64 (value g) = value g.
Proof.
  unfold real_geometry, to_uint64. cbn. intros H. apply Z.mod_small. lia.
Qed.

Lemma geometry_value_inj (g h : Type_) : value g = value h -> g = h.
Proof. destruct g, h; cbn; intros H; try reflexivity; discriminate H. Qed.

Lemma total_insert (c : list Z) (k : nat) (x y : Z) :
  c !! k = Some x -> total (<[k := y]> c) = total c - x + y.
Proof.
  unfold total. revert k.
  induction c as [| a c IH]; intros [| k] H; try discriminate H.
  - injection H as ->. cbn. lia.
  - change (<[S k := y]> (a :: c)) with (a :: <[k := y]> c).
    cbn [foldr]. rewrite (IH k H). lia.
Qed.

Lemma increment_length (c c' : list Z) (i : Z) :
  increment c i = Some c' -> length c' = length c.
Proof.
  unfold increment. intros H.
  destruct (i <? Z.of_nat (length c)); [| discriminate H].
  destruct (c !! Z.to_nat i); [| discriminate H].
  injection H as <-. apply length_insert.
Qed.

Lemma count_None_stays (geom : Z -> Type_) (skip : Z -> bool) (l : list Z) :
  foldl (fun counts i => if skip i then counts else count counts (geom i))
    None l = None.
Proof. induction l as [| i l IH]; cbn; [| destruct (skip i)]; auto. Qed.

Lemma geometry_eqb_eq (g h : Type_) : eqb g h = true <-> g = h.
Proof. destruct g, h; cbn; split; intros H; congruence. Qed.

(** The loop of both functions, from any counters. *)
Lemma counting_loop (skip : Z -> bool) (geom : Z -> Type_) (l : list Z)
    (c : list Z) :
  length c = 8%nat ->
  (forall i, In i l -> skip i = false -> real_geometry (geom i)) ->
  (forall k x, c !! k = Some x -> 0 <= x /\ x + Z.of_nat (length l) < 2 ^ 32) ->
  exists c' : list Z,
    foldl (fun counts i => if skip i then counts else count counts (geom i))
      (Some c) l = Some c'
    /\ length c' = 8%nat
    /\ (forall g x, real_geometry g ->
          c !! Z.to_nat (value g) = Some x ->
          c' !! Z.to_nat (value g)
          = Some (x + Z.of_nat
                        (length (List.filter
                                   (fun i => negb (skip i) && eqb (geom i) g)
                                   l))))
    /\ total c'
       = total c
         + Z.of_nat (length (List.filter (fun i => negb (skip i)) l)).
Proof.
  revert c. induction l as [| i l IH]; intros c Hlen Hreal Hbound.
  - exists c. cbn. repeat split; auto; try lia.
    intros g x _ Hx. rewrite Hx. f_equal. lia.
  - cbn [foldl]. destruct (skip i) eqn:Hskip.
    + destruct (IH c Hlen) as (c' & Hrun & Hlen' & Hcnt & Htot).
      { intros j Hj. apply Hreal. right. exact Hj. }
      { intros k x Hx. destruct (Hbound k x Hx). cbn [length] in *. lia. }
      exists c'. cbn [List.filter]. rewrite Hskip. cbn. auto.
    + assert (Hg : real_geometry (geom i)) by (apply Hreal; [left |]; auto).
      unfold count at 2. rewrite (real_geometry_index _ Hg).
      unfold increment. rewrite Hlen.
      destruct (Z.ltb_spec (value (geom i)) (Z.of_nat 8)) as [Hlt | Hge];
        [| unfold real_geometry in Hg; cbn in Hg, Hge; lia].
      destruct (lookup_lt_is_Some_2 c (Z.to_nat (value (geom i))))
        as [x0 Hx0]; [unfold real_geometry in Hg; lia |].
      rewrite Hx0.
      destruct (Hbound _ _ Hx0) as [Hx0a Hx0b]. cbn [length] in Hx0b.
      rewrite (Z.mod_small (x0 + 1)) by lia.
      destruct (IH (<[Z.to_nat (value (geom i)) := x0 + 1]> c))
        as (c' & Hrun & Hlen' & Hcnt & Htot).
      { rewrite length_insert. exact Hlen. }
      { intros j Hj. apply Hreal. right. exact Hj. }
      { intros k x Hx.
        destruct (decide (k = Z.to_nat (value (geom i)))) as [-> | Hne].
        - rewrite list_lookup_insert_eq in Hx
            by (unfold real_geometry in Hg; lia).
          injection Hx as <-. cbn [length] in *. lia.
        - rewrite list_lookup_insert_ne in Hx by congruence.
          destruct (Hbound k x Hx). cbn [length] in *. lia. }
      exists c'. split; [exact Hrun |]. split; [exact Hlen' |]. split.
      * intros g x Hgr Hx. cbn [List.filter]. rewrite Hskip. cbn [negb andb].
        destruct (eqb (geom i) g) eqn:Heq.
        -- apply geometry_eqb_eq in Heq. subst g. rewrite Hx in Hx0.
           injection Hx0 as <-.
           rewrite (Hcnt (geom i) (x + 1) Hgr)
             by (apply list_lookup_insert_eq; unfold real_geometry in Hg; lia).
           f_equal. cbn [length]. lia.
        -- rewrite (Hcnt g x Hgr); [reflexivity |].
           rewrite list_lookup_insert_ne; [exact Hx |].
           intros Hk. apply Z2Nat.inj in Hk;
             [| unfold real_geometry in *; lia ..].
           apply geometry_value_inj in Hk. subst g.
           assert (eqb (geom i) (geom i) = true)
             by (apply geometry_eqb_eq; reflexivity).
           congruence.
      * rewrite Htot, (total_insert c _ x0 (x0 + 1) Hx0).
        cbn [List.filter]. rewrite Hskip. cbn [negb length]. lia.
Qed.

Lemma filter_true_length (l : list Z) :
  length (List.filter (fun _ => true) l) = length l.
Proof. induction l as [| i l IH]; cbn; auto. Qed.

Lemma filter_length_le (keep : Z -> bool) (l : list Z) :
  (length (List.filter keep l) <= length l)%nat.
Proof.
  induction l as [| i l IH]; cbn; [lia |]. destruct (keep i); cbn; lia.
Qed.

Lemma no_counts_lookup (k : nat) (x : Z) :
  no_counts !! k = Some x -> x = 0.
Proof.
  unfold no_counts. intros H. apply lookup_replicate in H. tauto.
Qed.

Lemma no_counts_real (g : Type_) :
  real_geometry g -> no_counts !! Z.to_nat (value g) = Some 0.
Proof.
  unfold real_geometry, no_counts. cbn. intros H.
  apply lookup_replicate_2. lia.
Qed.

(** The loop of both functions from the zeroed counters. *)
Lemma counting_from_zero (skip : Z -> bool) (geom : Z -> Type_) (n : Z) :
  fits n ->
  (forall i, 0 <= i < n -> skip i = false -> real_geometry (geom i)) ->
  exists c' : list Z,
    foldl (fun counts i => if skip i then counts else count counts (geom i))
      (Some no_counts) (seqZ 0 n) = Some c'
    /\ length c' = 8%nat
    /\ (forall g, real_geometry g ->
          c' !! Z.to_nat (value g)
          = Some (tally (fun i => negb (skip i) && eqb (geom i) g) n))
    /\ total c' = tally (fun i => negb (skip i)) n.
Proof.
  intros Hn Hreal.
  destruct (counting_loop skip geom (seqZ 0 n) no_counts) as
    (c' & Hrun & Hlen & Hcnt & Htot).
  - reflexivity.
  - intros i Hi. apply Hreal. apply list_elem_of_In, elem_of_seqZ in Hi. lia.
  - intros k x Hx. apply no_counts_lookup in Hx. subst x.
    rewrite length_seqZ. unfold fits, INT_MIN, INT_MAX in Hn. lia.
  - exists c'. split; [exact Hrun |]. split; [exact Hlen |]. split.
    + intros g Hg. rewrite (Hcnt g 0 Hg (no_counts_real g Hg)).
      unfold tally. f_equal.
    + rewrite Htot. reflexivity.
Qed.

(** Only a real geometry converts to an index inside the array. *)
Lemma index_in_array (g : Type_) :
  (to_uint64 (value g) <? Z.of_nat 8) = true -> real_geometry g.
Proof.
  unfold real_geometry.
  destruct g; intros H; try (vm_compute in H; discriminate H); cbn; lia.
Qed.

(** A counter is only ever reached through a real geometry. *)
Lemma counting_defined (skip : Z -> bool) (geom : Z -> Type_) (l : list Z)
    (c : list Z) :
  length c = 8%nat ->
  is_Some (foldl (fun counts i =>
                    if skip i then counts else count counts (geom i))
             (Some c) l) ->
  forall i, In i l -> skip i = false -> real_geometry (geom i).
Proof.
  revert c. induction l as [| j l IH]; intros c Hlen Hsome i Hi Hskip.
  - destruct Hi.
  - cbn [foldl] in Hsome.
    destruct (skip j) eqn:Hj.
    + destruct Hi as [-> | Hi]; [congruence |].
      exact (IH c Hlen Hsome i Hi Hskip).
    + destruct (count (Some c) (geom j)) as [c1 |] eqn:Hc;
        [| rewrite count_None_stays in Hsome; destruct Hsome as [x Hx];
           discriminate Hx].
      assert (Hg : real_geometry (geom j)).
      { unfold count, increment in Hc. rewrite Hlen in Hc.
        apply index_in_array.
        destruct (to_uint64 (value (geom j)) <? Z.of_nat 8);
          [reflexivity | discriminate Hc]. }
      destruct Hi as [-> | Hi]; [exact Hg |].
      apply (IH c1); auto.
      rewrite (increment_length c c1 _ Hc). exact Hlen.
Qed.

End MeshCountsFacts.

Section MeshCountsClaims.
Import MachineInt.
Import Geometry.
Import MeshCounts.

(** X3: on a mesh whose elements all have a real geometry,
    [geometry_counts] returns, for each geometry, the number of elements
    of that geometry, and the counters add up to the number of
    elements. *)
Theorem geometry_counts_tally (mesh : Mesh) :
  fits (GetNE mesh) ->
  (forall i, 0 <= i < GetNE mesh ->
     real_geometry (GetElementGeometry mesh i)) ->
  exists counts : list Z,
    geometry_counts mesh = Some counts
    /\ length counts = 8%nat
    /\ (forall g, real_geometry g ->
          counts !! Z.to_nat (value g)
          = Some (tally (fun i => eqb (GetElementGeometry mesh i) g)
                    (GetNE mesh)))
    /\ total counts = Z.max 0 (GetNE mesh).
Proof.
  intros Hn Hreal.
  destruct (counting_from_zero (fun _ => false) (GetElementGeometry mesh)
              (GetNE mesh) Hn) as (c' & Hrun & Hlen & Hcnt & Htot).
  { intros i Hi _. apply Hreal. exact Hi. }
  exists c'. split; [exact Hrun |]. split; [exact Hlen |]. split.
  - exact Hcnt.
  - rewrite Htot. unfold tally. cbn [negb].
    rewrite filter_true_length, length_seqZ. lia.
Qed.

(** X4: [geometry_counts] stays inside its array of counters exactly when
    every element has a real geometry; an element whose geometry is
    [INVALID] or [NUM_GEOMETRIES] indexes outside the array. *)
Theorem geometry_counts_defined (mesh : Mesh) :
  fits (GetNE mesh) ->
  (is_Some (geometry_counts mesh) <->
   forall i, 0 <= i < GetNE mesh ->
     real_geometry (GetElementGeometry mesh i)).
Proof.
  intros Hn. split.
  - intros Hsome i Hi.
    apply (counting_defined (fun _ => false) (GetElementGeometry mesh)
             (seqZ 0 (GetNE mesh)) no_counts); auto.
    apply list_elem_of_In, elem_of_seqZ. lia.
  - intros Hreal.
    destruct (counting_from_zero (fun _ => false) (GetElementGeometry mesh)
                (GetNE mesh) Hn) as (c' & Hrun & _).
    { intros i Hi _. apply Hreal. exact Hi. }
    exists c'. exact Hrun.
Qed.

(** X5: [boundary_geometry_counts] counts, for each geometry, the faces of
    that geometry that are not interior; the counters add up to the number
    of boundary faces, and the geometry of an interior face is never
    looked at. *)
Theorem boundary_geometry_counts_tally (mesh : Mesh) :
  fits (GetNumFaces mesh) ->
  (forall f, 0 <= f < GetNumFaces mesh -> IsInterior mesh f = false ->
     real_geometry (GetFaceGeometry mesh f)) ->
  exists counts : list Z,
    boundary_geometry_counts mesh = Some counts
    /\ length counts = 8%nat
    /\ (forall g, real_geometry g ->
          counts !! Z.to_nat (value g)
          = Some (tally (fun f => negb (IsInterior mesh f)
                                  && eqb (GetFaceGeometry mesh f) g)
                    (GetNumFaces mesh)))
    /\ total counts
       = tally (fun f => negb (IsInterior mesh f)) (GetNumFaces mesh).
Proof.
  intros Hn Hreal.
  exact (counting_from_zero (IsInterior mesh) (GetFaceGeometry mesh)
           (GetNumFaces mesh) Hn Hreal).
Qed.

End MeshCountsClaims.

Section MeshCountsScenario.
Import MachineInt.
Import Geometry.
Import MeshCounts.

Lemma patch_fits : fits (GetNE patch) /\ fits (GetNumFaces patch).
Proof. unfold fits, INT_MIN, INT_MAX. cbn. lia. Qed.

Lemma patch_elements_real (i : Z) :
  0 <= i < GetNE patch -> real_geometry (GetElementGeometry patch i).
Proof.
  intros _. unfold real_geometry. cbn. destruct (i =? 1); cbn; lia.
Qed.

(** The patch: two triangles and a square. *)
Lemma patch_geometry_counts :
  exists counts : list Z,
    geometry_counts patch = Some counts
    /\ length counts = 8%nat
    /\ (forall g, real_geometry g ->
          counts !! Z.to_nat (value g)
          = Some (tally (fun i => eqb (GetElementGeometry patch i) g)
                    (GetNE patch)))
    /\ total counts = Z.max 0 (GetNE patch).
Proof.
  apply (geometry_counts_tally patch).
  - exact (proj1 patch_fits).
  - exact patch_elements_real.
Defined.

Lemma patch_geometry_counts_defined :
  is_Some (geometry_counts patch) <->
  forall i, 0 <= i < GetNE patch -> real_geometry (GetElementGeometry patch i).
Proof.
  apply (geometry_counts_defined patch). exact (proj1 patch_fits).
Defined.

(** The patch: three boundary edges. *)
Lemma patch_boundary_geometry_counts :
  exists counts : list Z,
    boundary_geometry_counts patch = Some counts
    /\ length counts = 8%nat
    /\ (forall g, real_geometry g ->
          counts !! Z.to_nat (value g)
          = Some (tally (fun f => negb (IsInterior patch f)
                                  && eqb (GetFaceGeometry patch f) g)
                    (GetNumFaces patch)))
    /\ total counts
       = tally (fun f => negb (IsInterior patch f)) (GetNumFaces patch).
Proof.
  apply (boundary_geometry_counts_tally patch).
  - exact (proj2 patch_fits).
  - intros f _ _. unfold real_geometry. cbn. lia.
Defined.

End MeshCountsScenario.

(* ===================================================================== *)
(** * tests/dynamic_thermal_adjoint.cpp: adjoint load and perturbation *)
(* ===================================================================== *)

Section ThermalAdjointTestFacts.
Import ThermalAdjointTest.

(** The loop after [k] of its iterations. *)
Lemma computeStepAdjointLoad_prefix (T : Field) (d : Dual) (dt : double)
    (k : nat) :
  (k <= length T)%nat ->
  foldl (fun d n =>
           match d, T !! Z.to_nat n with
           | Some d, Some Tn => assign d n (dt * Tn)%float
           | _, _ => None
           end)
    (Some d) (seqZ 0 (Z.of_nat k))
  = if decide (k <= length d)%nat
    then Some (List.map (fun x => (dt * x)%float) (take k T) ++ drop k d)
    else None.
Proof.
  unfold Field, Dual, double in *.
  induction k as [| k IH]; intros Hk.
  - cbn. rewrite decide_True by lia. rewrite drop_0. reflexivity.
  - rewrite seqZ_S, foldl_app, IH by lia. cbn [foldl].
    rewrite Z.add_0_l, Nat2Z.id.
    destruct (lookup_lt_is_Some_2 T k ltac:(lia)) as [Tk HTk].
    destruct (decide (k <= length d)%nat) as [Hkd | Hkd].
    + rewrite HTk. unfold assign.
      rewrite length_app, length_map, length_take, length_drop.
      destruct (decide (S k <= length d)%nat) as [Hsk | Hsk].
      * destruct (Z.leb_spec 0 (Z.of_nat k)); [| lia].
        destruct (Z.ltb_spec (Z.of_nat k)
                    (Z.of_nat (k `min` length T + (length d - k))));
          [| lia].
        cbn [andb]. f_equal. rewrite Nat2Z.id.
        destruct (lookup_lt_is_Some_2 d k ltac:(lia)) as [dk Hdk].
        rewrite (drop_S d dk k Hdk).
        rewrite (take_S_r T k Tk HTk), map_app. cbn [List.map].
        rewrite <- app_assoc. cbn [app].
        rewrite insert_app_r_alt
          by (rewrite length_map, length_take; lia).
        rewrite length_map, length_take.
        replace (k - k `min` length T)%nat with 0%nat by lia.
        reflexivity.
      * destruct (Z.ltb_spec (Z.of_nat k)
                    (Z.of_nat (k `min` length T + (length d - k))));
          [lia |].
        rewrite andb_false_r. reflexivity.
    + rewrite decide_False by lia. reflexivity.
Qed.

(** X6: [computeStepAdjointLoad] needs a dual at least as long as the
    temperature; it then overwrites the leading coefficients with
    [dt * temperature(n)] and leaves the others, so a dual of the size of
    the temperature is overwritten whole, whatever it held.  On a shorter
    dual it writes past the end. *)
Theorem computeStepAdjointLoad_overwrites (T : Field) (d : Dual)
    (dt : double) :
  computeStepAdjointLoad T d dt
  = if decide (length T <= length d)%nat
    then Some (List.map (fun x => (dt * x)%float) T ++ drop (length T) d)
    else None.
Proof.
  unfold computeStepAdjointLoad.
  rewrite (computeStepAdjointLoad_prefix T d dt (length T)) by lia.
  rewrite firstn_all. reflexivity.
Qed.

End ThermalAdjointTestFacts.

Section PerturbFacts.
Import ThermalAdjointTest.

Lemma perturb_prefix (T v : list float) (p : float) (k : nat) :
  (k <= length T)%nat ->
  foldl (fun run n =>
           match run with
           | Returned f =>
               match f !! Z.to_nat n, v !! Z.to_nat n with
               | Some fn, Some vn =>
                   Returned (<[Z.to_nat n := (fn + p * vn)%float]> f)
               | _, _ => Undefined
               end
           | other => other
           end)
    (Returned T) (seqZ 0 (Z.of_nat k))
  = if decide (k <= length v)%nat
    then Returned (zip_with (fun t x => (t + p * x)%float)
                     (take k T) (take k v) ++ drop k T)
    else Undefined.
Proof.
  induction k as [| k IH]; intros Hk.
  - cbn. rewrite decide_True by lia. rewrite drop_0. reflexivity.
  - rewrite seqZ_S, foldl_app, IH by lia. cbn [foldl].
    rewrite Z.add_0_l, Nat2Z.id.
    destruct (lookup_lt_is_Some_2 T k ltac:(lia)) as [Tk HTk].
    destruct (decide (k <= length v)%nat) as [Hkv | Hkv];
      [| rewrite decide_False by lia; reflexivity].
    set (W := zip_with (fun t x => (t + p * x)%float) (take k T) (take k v)).
    assert (Hzl : length W = k)
      by (unfold W; rewrite length_zip_with, !length_take; lia).
    rewrite lookup_app_r by lia. rewrite Hzl, Nat.sub_diag.
    rewrite (drop_S T Tk k HTk). cbn [lookup list_lookup].
    destruct (decide (S k <= length v)%nat) as [Hsk | Hsk].
    + destruct (lookup_lt_is_Some_2 v k ltac:(lia)) as [vk Hvk].
      rewrite Hvk. f_equal.
      rewrite insert_app_r_alt by lia. rewrite Hzl, Nat.sub_diag.
      cbn [insert list_insert].
      rewrite (take_S_r T k Tk HTk), (take_S_r v k vk Hvk).
      rewrite zip_with_app by (rewrite !length_take; lia).
      rewrite <- app_assoc. reflexivity.
    + rewrite (lookup_ge_None_2 v k) by lia. reflexivity.
Qed.

(** X11: the perturbation loop of the finite-difference drivers.  With
    assertions a direction of another size than the field stops the run.
    Without them the loop reads the direction up to the size of the field:
    a direction at least that long gives [field(n) + pertubation *
    direction(n)] in every coefficient (what is beyond the field is
    ignored), a shorter one is read past its end. *)
Theorem perturb_adds_scaled_direction (assertions : bool)
    (field direction : Field) (pertubation : double) :
  perturb assertions field direction pertubation
  = if assertions && negb (length field =? length direction)%nat
    then AssertionFailed
    else if decide (length field <= length direction)%nat
         then Returned (zip_with (fun t x => (t + pertubation * x)%float)
                          field direction)
         else Undefined.
Proof.
  unfold perturb, Field, double in *.
  replace (Z.of_nat (length field) =? Z.of_nat (length direction))
    with (length field =? length direction)%nat
    by (destruct (Nat.eqb_spec (length field) (length direction)),
          (Z.eqb_spec (Z.of_nat (length field))
             (Z.of_nat (length direction))); lia || reflexivity).
  destruct (assertions && negb (length field =? length direction)%nat);
    [reflexivity |].
  rewrite (perturb_prefix field direction pertubation (length field))
    by lia.
  destruct (decide (length field <= length direction)%nat); [| reflexivity].
  rewrite firstn_all, drop_all, app_nil_r.
  rewrite zip_with_take_r by lia. reflexivity.
Qed.

End PerturbFacts.

(* ===================================================================== *)
(** * thermomechanics.hpp: the life cycle of the coupled module *)
(* ===================================================================== *)

Section NaNFacts.
Import Thermomechanics.

Lemma is_nan_Prim2SF (x : double) : is_nan x = true -> Prim2SF x = S754_nan.
Proof.
  unfold is_nan. rewrite FloatAxioms.eqb_spec.
  destruct (Prim2SF x) as [s | s | | s m e]; cbn; try reflexivity;
    try (destruct s; discriminate).
  unfold SFeqb, SFcompare.
  rewrite Z.compare_refl, Pos.compare_cont_refl.
  destruct s; discriminate.
Qed.

(** [std::abs(dt - initial_dt) > 1.0e-6] is false as soon as one of the
    two is NaN. *)
Lemma dt_changed_nan (dt initial_dt : double) :
  is_nan dt = true \/ is_nan initial_dt = true ->
  dt_changed dt initial_dt = false.
Proof.
  unfold dt_changed. rewrite ltb_spec, abs_spec, sub_spec.
  intros [H | H]; apply is_nan_Prim2SF in H; rewrite H.
  - reflexivity.
  - destruct (Prim2SF dt) as [s | s | | s m e]; reflexivity.
Qed.

End NaNFacts.

Section LifecycleFacts.
Import MachineInt.
Import BasePhysics.
Import Thermomechanics.
Import Lifecycle.
Variable thermal_solve : Field -> gmap Z Field -> double -> Solve Field.
Variable solid_solve :
  Field * Field -> gmap Z Field -> double -> Solve (Field * Field).

Local Abbreviation step := (advanceTimestep thermal_solve solid_solve).

Lemma setup_below_parameters (m m' : t) :
  setup_below m m' -> coupled m -> coupled m'.
Proof.
  induction 1 as [m | m m' ps i _ IH Hi | m m' a _ IH | m m' T _ IH
                  | m m' u _ IH]; intros Hm; auto.
  apply setParameter_keeps_coupling; auto.
Qed.

Lemma forward_parameters (k : nat) (m m' : t) :
  forward thermal_solve solid_solve k m m' ->
  parameters (thermal_ m') = parameters (thermal_ m)
  /\ parameters (solid_ m') = parameters (solid_ m).
Proof.
  induction 1 as [m | k m m1 m2 user dt dta _ IH Hstep]; [auto |].
  destruct IH as [IHt IHs].
  apply advanceTimestep_coupled_Ok in Hstep.
  destruct Hstep as (_ & th & so & dt1 & Hth & Hso & _ & ->).
  apply advanceTimestep_Ok in Hth. apply advanceTimestep_Ok in Hso.
  destruct Hth as (_ & _ & Htp & _). destruct Hso as (_ & _ & Hsp & _).
  cbn. split; congruence.
Qed.

Lemma setParameter_keeps_registered (m : t) (ps : FieldRef) (i s : Z) :
  is_Some (parameters (thermal_ m) !! s) ->
  is_Some (parameters (solid_ m) !! s) ->
  is_Some (parameters (thermal_ (setParameter m ps i)) !! s)
  /\ is_Some (parameters (solid_ (setParameter m ps i)) !! s).
Proof.
  intros Ht Hs. cbn.
  destruct (decide (size_add i 1 = s)) as [<- | Hne].
  - rewrite !lookup_insert_eq. split; eauto.
  - rewrite !lookup_insert_ne by exact Hne. auto.
Qed.

Lemma setParameters_register (calls : list (FieldRef * Z)) (m : t)
    (ps : FieldRef) (a : Z) :
  Forall (fun c => 0 <= snd c < SIZE_MAX) calls ->
  In (ps, a) calls ->
  is_Some (parameters (thermal_ (setParameters m calls)) !! (a + 1))
  /\ is_Some (parameters (solid_ (setParameters m calls)) !! (a + 1)).
Proof.
  intros Hall Hin. revert m.
  induction calls as [| [ps0 a0] rest IH]; intros m; [destruct Hin |].
  apply Forall_cons in Hall. destruct Hall as [Ha0 Hrest]. cbn in Ha0.
  destruct Hin as [Heq | Hin].
  - injection Heq as -> ->. cbn [setParameters fold_left fst snd].
    assert (Hnow :
      is_Some (parameters (thermal_ (setParameter m ps a)) !! (a + 1))
      /\ is_Some (parameters (solid_ (setParameter m ps a)) !! (a + 1))).
    { cbn. rewrite size_add_small by (unfold SIZE_MAX in *; lia).
      rewrite !lookup_insert_eq. split; eauto. }
    clear IH. revert Hnow. generalize (setParameter m ps a). clear m.
    induction rest as [| [ps1 a1] rest IHr]; intros m [Ht Hs]; [auto |].
    apply Forall_cons in Hrest. destruct Hrest as [_ Hrest].
    cbn [fold_left fst snd]. apply (IHr Hrest).
    apply setParameter_keeps_registered; assumption.
  - cbn [setParameters fold_left fst snd]. apply (IH Hrest Hin).
Qed.

(** X7: the timestep check cannot see a NaN: when the timestep the call
    started with or the one the solid sub-step left is NaN, the coupled
    step succeeds and returns what the solid sub-step left. *)
Theorem advanceTimestep_accepts_nan (user : nat -> Field) (m : t)
    (dt dt1 dt2 : double) (th : HeatTransfer) (so : SolidMechanics) :
  coupling_ m = OperatorSplit ->
  BasePhysics.advanceTimestep thermal_solve (view user m) (thermal_ m) dt
  = Ok th dt1 ->
  BasePhysics.advanceTimestep solid_solve (view user (with_thermal m th))
    (solid_ m) dt1 = Ok so dt2 ->
  is_nan dt2 = true \/ is_nan dt = true ->
  step user m dt
  = Ok (with_cycle (with_solid (with_thermal m th) so) (cycle_ m + 1)) dt2.
Proof.
  intros Hc Hth Hso Hnan.
  rewrite (advanceTimestep_both_returned thermal_solve solid_solve
             user m dt dt1 dt2 th so Hc Hth Hso).
  rewrite (dt_changed_nan dt2 dt Hnan). reflexivity.
Qed.

(** X8: the cross coupling is an invariant of the life cycle: after a
    set-up whose user parameter indices are all below [SIZE_MAX],
    [completeSetup()] and any number of successful coupled steps, slot 0
    of the thermal sub-module is still the displacement, slot 0 of the
    solid sub-module still the temperature, and no parameter slot of
    either has changed since the set-up. *)
Theorem coupling_survives_steps (dim : Z) (mesh : Mesh) (name : string)
    (m0 m1 m2 m3 : t) (k : nat) :
  create dim mesh name = Ok tt m0 ->
  setup_below m0 m1 ->
  completeSetup m1 = Ok m2 tt ->
  forward thermal_solve solid_solve k m2 m3 ->
  coupled m3
  /\ parameters (thermal_ m3) = parameters (thermal_ m1)
  /\ parameters (solid_ m3) = parameters (solid_ m1).
Proof.
  intros Hcreate Hsetup Hcomplete Hforward.
  apply create_Ok in Hcreate. destruct Hcreate as (_ & _ & Hm0 & _).
  pose proof (setup_below_parameters m0 m1 Hsetup Hm0) as [Ht1 Hs1].
  apply completeSetup_Ok in Hcomplete.
  destruct Hcomplete as (_ & Ht2 & Hs2 & _).
  apply forward_parameters in Hforward. destruct Hforward as [Ht3 Hs3].
  unfold coupled. rewrite Ht3, Hs3, Ht2, Hs2. auto.
Qed.

End LifecycleFacts.

Section MaterialFacts.
Import MachineInt.
Import BasePhysics.
Import Thermomechanics.

(** X9: [setMaterial] and [setParameter] shift the user parameter indices
    by the same offset: once every active parameter of the material has
    been registered with [setParameter] at an index below [SIZE_MAX],
    both sub-modules are given the same dependence list, slot 0 first, and
    every slot of that list holds a registered field in both. *)
Theorem material_slots_are_registered (dim : Z) (mesh : Mesh)
    (name : string) (m0 : t) (calls : list (FieldRef * Z))
    (active_parameters : list Z) :
  create dim mesh name = Ok tt m0 ->
  Forall (fun c => 0 <= snd c < SIZE_MAX) calls ->
  (forall a, In a active_parameters -> exists ps, In (ps, a) calls) ->
  let m := setMaterial (setParameters m0 calls) active_parameters in
  let depends_on := 0 :: List.map (fun a => a + 1) active_parameters in
  material (thermal_ m) = Some depends_on
  /\ material (solid_ m) = Some depends_on
  /\ forall s, In s depends_on ->
       is_Some (parameters (thermal_ m) !! s)
       /\ is_Some (parameters (solid_ m) !! s).
Proof.
  intros Hcreate Hcalls Hactive m depends_on.
  split; [reflexivity |]. split; [reflexivity |].
  intros s Hs. subst m. cbn [setMaterial thermal_ solid_ with_thermal
    with_solid BasePhysics.setMaterial parameters].
  destruct Hs as [<- | Hs].
  - apply create_Ok in Hcreate. destruct Hcreate as (_ & _ & Hm0 & _).
    destruct (setParameters_keep_coupling calls m0 Hcalls Hm0) as [Ht Hs0].
    rewrite Ht, Hs0. split; eauto.
  - apply in_map_iff in Hs. destruct Hs as (a & <- & Ha).
    destruct (Hactive a Ha) as [ps Hps].
    exact (setParameters_register calls m0 ps a Hcalls Hps).
Qed.

End MaterialFacts.

Section LifecycleScenario.
Import MachineInt.
Import BasePhysics.
Import Thermomechanics.
Import Scenario.
Import Lifecycle.

(** The beam when its solid solve loses the timestep. *)
Lemma beam_step_accepts_nan :
  advanceTimestep heat follow_losing_timestep no_user ready 1%float
  = Ok (with_cycle
          (with_solid (with_thermal ready (thermal_ lost)) (solid_ lost))
          (cycle_ ready + 1)) nan.
Proof.
  apply (advanceTimestep_accepts_nan heat follow_losing_timestep no_user
           ready 1%float 1%float nan (thermal_ lost) (solid_ lost)).
  - vm_compute. reflexivity.
  - vm_compute. reflexivity.
  - vm_compute. reflexivity.
  - left. vm_compute. reflexivity.
Defined.

(** The beam after two coupled steps. *)
Lemma beam_coupling_survives :
  coupled (stepped (stepped ready))
  /\ parameters (thermal_ (stepped (stepped ready)))
     = parameters (thermal_ assembled)
  /\ parameters (solid_ (stepped (stepped ready)))
     = parameters (solid_ assembled).
Proof.
  apply (coupling_survives_steps heat follow 3 beam "beam" constructed
           assembled ready (stepped (stepped ready)) 2).
  - exact constructed_Ok.
  - apply setup_below_temperature, setup_below_material, setup_below_done.
  - exact ready_Ok.
  - exact ready_stepped_twice.
Defined.

(** A material of the beam that depends on the user parameters 0 and 2. *)
Lemma beam_material_slots :
  let calls := [(External 1, 0); (External 2, 1); (External 3, 2)] in
  let m := setMaterial (setParameters constructed calls) [0; 2] in
  let depends_on := 0 :: List.map (fun a => a + 1) [0; 2] in
  material (thermal_ m) = Some depends_on
  /\ material (solid_ m) = Some depends_on
  /\ forall s, In s depends_on ->
       is_Some (parameters (thermal_ m) !! s)
       /\ is_Some (parameters (solid_ m) !! s).
Proof.
  apply (material_slots_are_registered 3 beam "beam" constructed
           [(External 1, 0); (External 2, 1); (External 3, 2)] [0; 2]).
  - exact constructed_Ok.
  - repeat constructor; cbn; unfold SIZE_MAX; lia.
  - intros a [<- | [<- | []]]; eexists; cbn; eauto.
Defined.

End LifecycleScenario.

(* ===================================================================== *)
(** * The hollow quarter cylinder *)
(* ===================================================================== *)

Section HollowCylinderFacts.
Import MachineInt.
Import HollowCylinder.
Variable cos : double -> double.
Variable sin : double -> double.
Variable inner_radius : double.
Variable outer_radius : double.
Variable height : double.

Local Abbreviation shell' := (shell cos sin inner_radius outer_radius height).
Local Abbreviation moved' := (moved cos sin inner_radius outer_radius height).
Local Abbreviation move' :=
  (move_vertex cos sin inner_radius outer_radius height).
Local Abbreviation moved_up_to' :=
  (moved_up_to cos sin inner_radius outer_radius height).

Lemma vertex_index_fits (nv d i : Z) :
  fits (3 * nv) -> 0 <= i < nv -> 0 <= d <= 2 ->
  int_add (int_mul d nv) i = d * nv + i.
Proof.
  intros Hf Hi Hd. unfold int_add, int_mul.
  assert (Hdn : 0 <= d * nv <= 2 * nv) by nia.
  rewrite (wrap32_fits (d * nv))
    by (unfold fits, INT_MIN, INT_MAX in *; lia).
  apply wrap32_fits. unfold fits, INT_MIN, INT_MAX in *. lia.
Qed.

Lemma read_inside (v : list double) (n : Z) :
  0 <= n < Z.of_nat (length v) -> read v n = v !! Z.to_nat n.
Proof.
  intros H. unfold read.
  destruct (Z.leb_spec 0 n); [| lia].
  destruct (Z.ltb_spec n (Z.of_nat (length v))); [| lia]. reflexivity.
Qed.

Lemma write_inside (v : list double) (n : Z) (x : double) :
  0 <= n < Z.of_nat (length v) ->
  write v n x = Some (<[Z.to_nat n := x]> v).
Proof.
  intros H. unfold write.
  destruct (Z.leb_spec 0 n); [| lia].
  destruct (Z.ltb_spec n (Z.of_nat (length v))); [| lia]. reflexivity.
Qed.

Lemma move_vertex_step (nv : Z) (vs cur : list double) (k : Z) :
  fits (3 * nv) -> Z.of_nat (length vs) = 3 * nv -> 0 <= k < nv ->
  moved_up_to' nv vs cur k ->
  exists cur', move' nv cur k = Some cur' /\ moved_up_to' nv vs cur' (k + 1).
Proof.
  intros Hf Hlen Hk [Hl Hinv].
  destruct (lookup_lt_is_Some_2 vs (Z.to_nat k) ltac:(lia)) as [x Hx].
  destruct (lookup_lt_is_Some_2 vs (Z.to_nat (nv + k)) ltac:(lia))
    as [y Hy].
  destruct (lookup_lt_is_Some_2 vs (Z.to_nat (2 * nv + k)) ltac:(lia))
    as [z Hz].
  pose proof (Hinv k 0 Hk ltac:(lia)) as H0.
  pose proof (Hinv k 1 Hk ltac:(lia)) as H1.
  pose proof (Hinv k 2 Hk ltac:(lia)) as H2.
  rewrite Z.ltb_irrefl in H0, H1, H2.
  replace (0 * nv + k) with k in H0 by lia.
  replace (1 * nv + k) with (nv + k) in H1 by lia.
  rewrite Hx in H0. rewrite Hy in H1. rewrite Hz in H2.
  unfold move_vertex.
  rewrite (vertex_index_fits nv 0 k Hf Hk ltac:(lia)).
  rewrite (vertex_index_fits nv 1 k Hf Hk ltac:(lia)).
  rewrite (vertex_index_fits nv 2 k Hf Hk ltac:(lia)).
  replace (0 * nv + k) with k by lia.
  replace (1 * nv + k) with (nv + k) by lia.
  rewrite !read_inside by lia.
  rewrite H0, H1, H2. cbn [mbind option_bind].
  destruct (shell' x y z) as [[x' y'] z'] eqn:Hshell.
  rewrite write_inside by lia. cbn [mbind option_bind].
  rewrite write_inside by (rewrite length_insert; lia).
  cbn [mbind option_bind].
  rewrite write_inside by (rewrite !length_insert; lia).
  eexists. split; [reflexivity |].
  split; [rewrite !length_insert; exact Hl |].
  intros i d Hi Hd.
  destruct (Z.eq_dec i k) as [-> | Hne].
  - destruct (Z.ltb_spec k (k + 1)); [| lia].
    unfold moved. rewrite Hx, Hy, Hz. cbn [mbind option_bind].
    rewrite Hshell. unfold coordinate.
    assert (Hcase : d = 0 \/ d = 1 \/ d = 2) by lia.
    destruct Hcase as [-> | [-> | ->]]; cbn [Z.eqb fst snd].
    + replace (0 * nv + k) with k by lia.
      rewrite !list_lookup_insert_ne by lia.
      apply list_lookup_insert_eq. lia.
    + replace (1 * nv + k) with (nv + k) by lia.
      rewrite list_lookup_insert_ne by lia.
      apply list_lookup_insert_eq. rewrite length_insert. lia.
    + apply list_lookup_insert_eq. rewrite !length_insert. lia.
  - pose proof (Hinv i d Hi Hd) as Hid.
    assert (Hcase : d = 0 \/ d = 1 \/ d = 2) by lia.
    destruct Hcase as [-> | [-> | ->]];
      rewrite !list_lookup_insert_ne by lia; rewrite Hid;
      destruct (Z.ltb_spec i k), (Z.ltb_spec i (k + 1)); try lia;
      reflexivity.
Qed.

Lemma build_loop (nv : Z) (vs : list double) (k : nat) :
  fits (3 * nv) -> Z.of_nat (length vs) = 3 * nv -> Z.of_nat k <= nv ->
  exists cur,
    foldl (fun v i => v ≫= fun v => move' nv v i) (Some vs)
      (seqZ 0 (Z.of_nat k)) = Some cur
    /\ moved_up_to' nv vs cur (Z.of_nat k).
Proof.
  intros Hf Hlen. induction k as [| k IH]; intros Hk.
  - exists vs. split; [reflexivity |]. split; [reflexivity |].
    intros i d Hi Hd. destruct (Z.ltb_spec i (Z.of_nat 0)); [lia |].
    reflexivity.
  - destruct (IH ltac:(lia)) as (cur & Hrun & Hinv).
    destruct (move_vertex_step nv vs cur (Z.of_nat k) Hf Hlen ltac:(lia) Hinv)
      as (cur' & Hstep & Hinv').
    exists cur'. rewrite seqZ_S, foldl_app, Hrun. cbn [foldl mbind option_bind].
    rewrite Z.add_0_l. split; [exact Hstep |].
    replace (Z.of_nat (S k)) with (Z.of_nat k + 1) by lia. exact Hinv'.
Qed.

(** X10: the loop of [build_hollow_quarter_cylinder] moves every vertex
    onto the shell from its own original coordinates: with the
    coordinates of [num_vertices] vertices stored coordinate by
    coordinate, it stays inside the array, keeps its size, and leaves at
    index [d * num_vertices + i] coordinate [d] of the image of the
    original vertex [i]. *)
Theorem build_hollow_quarter_cylinder_moves_each_vertex (num_vertices : Z)
    (new_vertices : list double) :
  0 <= num_vertices ->
  fits (3 * num_vertices) ->
  Z.of_nat (length new_vertices) = 3 * num_vertices ->
  exists moved_vertices : list double,
    build_hollow_quarter_cylinder cos sin inner_radius outer_radius height
      num_vertices new_vertices = Some moved_vertices
    /\ length moved_vertices = length new_vertices
    /\ forall i d, 0 <= i < num_vertices -> 0 <= d <= 2 ->
         is_Some (moved' num_vertices new_vertices i d)
         /\ moved_vertices !! Z.to_nat (d * num_vertices + i)
            = moved' num_vertices new_vertices i d.
Proof.
  intros Hnv Hf Hlen.
  destruct (build_loop num_vertices new_vertices (Z.to_nat num_vertices)
              Hf Hlen ltac:(lia)) as (cur & Hrun & Hl & Hinv).
  rewrite Z2Nat.id in Hrun, Hinv by lia.
  exists cur. split; [exact Hrun |]. split; [exact Hl |].
  intros i d Hi Hd. split.
  - unfold moved.
    destruct (lookup_lt_is_Some_2 new_vertices (Z.to_nat i) ltac:(lia))
      as [x ->].
    destruct (lookup_lt_is_Some_2 new_vertices
                (Z.to_nat (num_vertices + i)) ltac:(lia)) as [y ->].
    destruct (lookup_lt_is_Some_2 new_vertices
                (Z.to_nat (2 * num_vertices + i)) ltac:(lia)) as [z ->].
    cbn. eauto.
  - rewrite (Hinv i d Hi Hd).
    destruct (Z.ltb_spec i num_vertices); [reflexivity | lia].
Qed.

End HollowCylinderFacts.

Section HollowCylinderScenario.
Import MachineInt.
Import HollowCylinder.

(** Two vertices of the unit cube, stored as [x0, x1, y0, y1, z0, z1]. *)
Lemma two_vertices_moved :
  let vertices := [0.5; 1; 0; 0.25; 1; 0.5]%float in
  exists moved_vertices : list double,
    build_hollow_quarter_cylinder cos_near_zero sin_near_zero
      1%float 1.25%float 2%float 2 vertices = Some moved_vertices
    /\ length moved_vertices = length vertices
    /\ forall i d, 0 <= i < 2 -> 0 <= d <= 2 ->
         is_Some (moved cos_near_zero sin_near_zero 1%float 1.25%float
                    2%float 2 vertices i d)
         /\ moved_vertices !! Z.to_nat (d * 2 + i)
            = moved cos_near_zero sin_near_zero 1%float 1.25%float
                2%float 2 vertices i d.
Proof.
  apply (build_hollow_quarter_cylinder_moves_each_vertex cos_near_zero
           sin_near_zero 1%float 1.25%float 2%float 2
           [0.5; 1; 0; 0.25; 1; 0.5]%float).
  - lia.
  - unfold fits, INT_MIN, INT_MAX. lia.
  - reflexivity.
Defined.

End HollowCylinderScenario.
